(** * Shifter image gateway: the image manager and the REST response shaper

    A shallow embedding of [imagegw/src/imagemngr.py] (class [imagemngr]) and
    of [create_response] from [imagegw/shifter_imagegw/imagegwapi.py], with
    the constructor and command line of the former and the [list] and
    [lookup] routes of the latter.

    The manager keeps three pieces of mutable state: the Mongo collection
    [self.images], the list [self.tasks] of outstanding pull requests and the
    dictionary [self.task_image_id] from a pull request to the [_id] of the
    image it will update.  Methods are state transformers that either return
    a value or raise; what was written before an exception stays written.

    pymongo, celery and the [auth] module are not part of the two files: the
    collection is modelled as the list of its documents with the behaviour
    of [find_one], [insert] and a single-document [update]; what celery and
    [auth] answer at the time of a call is a parameter of the call. *)

From stdpp Require Import gmap strings list fin_maps.

Local Open Scope string_scope.
Local Open Scope list_scope.

(** ** Python values and documents *)

(** The values that occur in image documents: [None], strings, lists of
    strings (the ACLs) and BSON object ids. *)
Inductive value : Type :=
  | VNone
  | VStr (s : string)
  | VList (l : list string)
  | VOid (n : nat).

#[global] Instance value_eq_dec : EqDecision value.
Proof. solve_decision. Defined.

#[global] Instance value_countable : Countable value.
Proof.
  refine (inj_countable'
    (fun v => match v with
              | VNone => inl (inl tt) | VStr s => inl (inr s)
              | VList l => inr (inl l) | VOid n => inr (inr n)
              end)
    (fun x => match x with
              | inl (inl _) => VNone | inl (inr s) => VStr s
              | inr (inl l) => VList l | inr (inr n) => VOid n
              end) _).
  by intros [].
Defined.

(** A Python dict with string keys / a Mongo document. *)
Abbreviation doc := (gmap string value).

(** The exceptions that can leave a method of the manager. *)
Inductive exn : Type :=
  | KeyError          (* d[k] on a dict without k *)
  | TypeError         (* None[k] *)
  | AuthError         (* raised by auth.authenticate *)
  | DuplicateKeyError (* pymongo: _id already in the collection *)
  | WriteError        (* pymongo: an array as _id *)
  | BrokerError       (* celery: apply_async could not publish the job *)
  | WorkerError.      (* dopull called in process raised *)

Inductive result (A : Type) : Type :=
  | Ok (a : A)
  | Raise (e : exn).
Arguments Ok {A} a.
Arguments Raise {A} e.

#[global] Instance exn_eq_dec : EqDecision exn.
Proof. solve_decision. Defined.

#[global] Instance result_eq_dec {A} `{EqDecision A} : EqDecision (result A).
Proof. solve_decision. Defined.

(** [d[k]] *)
Definition getitem (d : doc) (k : string) : result value :=
  match d !! k with
  | Some v => Ok v
  | None => Raise KeyError
  end.

(** ** The Mongo collection

    The collection is the sequence of its documents in insertion order;
    [find_one] and a single-document [update] act on the first document
    that matches the query. *)
Module Mongo.

Definition query : Type := list (string * value).

(** Equality match of one query field: equal values match, a string
    matches an array that contains it, and [None] matches an absent
    field. *)
Definition matches_field (d : doc) (k : string) (v : value) : bool :=
  match d !! k with
  | Some w =>
      bool_decide (w = v)
      || match w, v with
         | VList l, VStr s => bool_decide (s ∈ l)
         | _, _ => false
         end
  | None => bool_decide (v = VNone)
  end.

Definition matches (q : query) (d : doc) : bool :=
  List.forallb (fun kv => matches_field d kv.1 kv.2) q.

Definition find_one (q : query) (c : list doc) : option doc :=
  List.find (matches q) c.

(** [update(q, {'$set': {k: v}})]: the first match gets field [k] set;
    nothing happens when no document matches (no upsert). *)
Fixpoint update_set (q : query) (k : string) (v : value) (c : list doc)
  : list doc :=
  match c with
  | [] => []
  | d :: c' =>
      if matches q d then <[k := v]> d :: c'
      else d :: update_set q k v c'
  end.

Definition oid_bound (d : doc) : nat :=
  match d !! "_id" with
  | Some (VOid n) => S n
  | _ => 0
  end.

(** An object id that no document of the collection carries. *)
Definition fresh_oid (c : list doc) : nat :=
  foldr (fun d => Nat.max (oid_bound d)) 0 c.

Definition has_id (i : value) (d : doc) : bool :=
  bool_decide (d !! "_id" = Some i).

(** [insert(d)]: a document without [_id] gets a fresh object id, which
    pymongo also writes into the dict it was handed; the result is that
    dict together with the new collection. *)
Definition insert_doc (d : doc) (c : list doc) : result (doc * list doc) :=
  match d !! "_id" with
  | None =>
      let d' := <["_id" := VOid (fresh_oid c)]> d in
      Ok (d', c ++ [d'])
  | Some (VList _) => Raise WriteError
  | Some i =>
      if List.existsb (has_id i) c then Raise DuplicateKeyError
      else Ok (d, c ++ [d])
  end.

End Mongo.

(** ** The manager's state and its environment *)

(** An entry of [self.tasks]: the [AsyncResult] returned by
    [dopull.apply_async] (identified by its task id), or, when celery is
    bypassed ([delay=False]), the image [_id] itself. *)
Inductive task : Type :=
  | TAsync (h : nat)
  | TObj (i : value).

#[global] Instance task_eq_dec : EqDecision task.
Proof. solve_decision. Defined.

#[global] Instance task_countable : Countable task.
Proof.
  refine (inj_countable'
    (fun t => match t with TAsync h => inl h | TObj i => inr i end)
    (fun x => match x with inl h => TAsync h | inr i => TObj i end) _).
  by intros [].
Defined.

(** [images], [tasks] and [task_image_id] are the attributes of the class.
    [queue] is the celery side of [apply_async]: the jobs published so far,
    each with the queue it went to and the request it carries. *)
Record mngr : Type := Mngr {
  images : list doc;
  tasks : list task;
  task_image_id : gmap task value;
  queue : list (value * doc)
}.

(** What the manager cannot decide itself, at the time of one call:
    whether [auth.authenticate] accepts a token, the [state] attribute of
    each [AsyncResult], whether the broker accepts a job, and whether
    [dopull] run in process returns. *)
Record world : Type := World {
  authenticate : string -> bool;
  async_state : nat -> string;
  broker_up : bool;
  worker_ok : bool
}.

(** State and exceptions. *)
Definition M (A : Type) : Type := mngr -> result A * mngr.

Definition ret {A} (a : A) : M A := fun m => (Ok a, m).
Definition raise {A} (e : exn) : M A := fun m => (Raise e, m).
Definition bind {A B} (c : M A) (k : A -> M B) : M B :=
  fun m =>
    match c m with
    | (Ok a, m') => k a m'
    | (Raise e, m') => (Raise e, m')
    end.
Definition lift {A} (r : result A) : M A := fun m => (r, m).

Notation "'let!' x := c 'in' k" := (bind c (fun x => k))
  (at level 10, x name, c at level 100, k at level 200).
Notation "'run!' c 'in' k" := (bind c (fun _ => k))
  (at level 10, c at level 100, k at level 200).

Definition get_images : M (list doc) := fun m => (Ok (images m), m).
Definition set_images (c : list doc) : M unit :=
  fun m => (Ok tt, Mngr c (tasks m) (task_image_id m) (queue m)).

(** ** class imagemngr *)
Module imagemngr.

(** The query [{'system':..., 'itype':..., 'tag':...}] built from an
    image dict by [lookup] and [isready]. *)
Definition image_query (image : doc) : result Mongo.query :=
  match getitem image "system" with
  | Raise e => Raise e
  | Ok s =>
      match getitem image "itype" with
      | Raise e => Raise e
      | Ok t =>
          match getitem image "tag" with
          | Raise e => Raise e
          | Ok g => Ok [("system", s); ("itype", t); ("tag", g)]
          end
      end
  end.

(** Sets the status of the image with [_id == id]; SUCCESS is stored as
    READY. *)
Definition update_mongo_state (id : value) (state : string) : M unit :=
  let state := if decide (state = "SUCCESS") then "READY" else state in
  let! c := get_images in
  set_images (Mongo.update_set [("_id", id)] "status" (VStr state) c).

(** The state [update_states] reads for one entry of [self.tasks]. *)
Definition task_state (w : world) (req : task) : string :=
  match req with
  | TAsync h => async_state w h
  | TObj _ => "PENDING"
  end.

(** The body of [update_states]: [for req in self.tasks]. *)
Fixpoint update_states_loop (w : world) (reqs : list task) : M unit :=
  match reqs with
  | [] => ret tt
  | req :: reqs' =>
      let! id := (fun m =>
                  (match task_image_id m !! req with
                   | Some i => Ok i
                   | None => Raise KeyError
                   end, m)) in
      run! update_mongo_state id (task_state w req) in
      update_states_loop w reqs'
  end.

Definition update_states (w : world) : M unit :=
  fun m => update_states_loop w (tasks m) m.

(** Authenticates, refreshes the states and returns the record stored for
    the image, or [None]. *)
Definition lookup (w : world) (auth : string) (image : doc)
  : M (option doc) :=
  run! (if authenticate w auth then ret tt else raise AuthError) in
  let! q := lift (image_query image) in
  run! update_states w in
  let! c := get_images in
  ret (Mongo.find_one q c).

(** A record is stored for the image and its status is READY. *)
Definition isready (image : doc) : M bool :=
  let! q := lift (image_query image) in
  let! c := get_images in
  ret match Mongo.find_one q c with
      | Some rec => bool_decide (rec !! "status" = Some (VStr "READY"))
      | None => false
      end.

Definition default_image : doc :=
  list_to_map
    [("format", VStr "ext4"); ("arch", VStr "amd64"); ("os", VStr "linux");
     ("location", VStr ""); ("remotetype", VStr "dockerv2");
     ("ostcount", VStr "0"); ("replication", VStr "1");
     ("userAcl", VList []); ("status", VStr "UNKNOWN");
     ("groupAcl", VList [])].

(** Returns the stored record when there is one; otherwise inserts the
    defaults overlaid with the image's own fields and returns that. *)
Definition new_image_record (w : world) (auth : string) (image : doc)
  : M doc :=
  let! record := lookup w auth image in
  match record with
  | Some rec => ret rec
  | None =>
      let newimage := image ∪ default_image in
      let! c := get_images in
      let! ins := lift (Mongo.insert_doc newimage c) in
      run! set_images ins.2 in
      ret ins.1
  end.

(** [dopull.apply_async([request], queue=...)] *)
Definition apply_async (w : world) (request : doc) (q : value) : M task :=
  fun m =>
    if broker_up w
    then (Ok (TAsync (length (queue m))),
          Mngr (images m) (tasks m) (task_image_id m)
               (queue m ++ [(q, request)]))
    else (Raise BrokerError, m).

(** [self.task_image_id[pullreq]=id; self.tasks.append(pullreq)] *)
Definition track (pullreq : task) (id : value) : M unit :=
  fun m =>
    (Ok tt, Mngr (images m) (tasks m ++ [pullreq])
                 (<[pullreq := id]> (task_image_id m)) (queue m)).

(** [delay] is the keyword argument of the same name (default [True]);
    without it [dopull] runs in process and the task tracked is the image
    id itself. *)
Definition pull (w : world) (auth : string) (request : doc) (delay : bool)
  : M value :=
  let! ready := isready request in
  if negb ready then
    let! rec := new_image_record w auth request in
    let id := default VNone (rec !! "_id") in
    run! update_mongo_state id "ENQUEUED" in
    let! pullreq :=
      (if delay then
         let! sys := lift (getitem request "system") in
         apply_async w request sys
       else
         run! (if worker_ok w then ret tt else raise WorkerError) in
         ret (TObj id)) in
    run! track pullreq id in
    ret id
  else
    let! rec := new_image_record w auth request in
    ret (default VNone (rec !! "_id")).

(** Refreshes the states and subscripts what [find_one] returned with
    ['status']. *)
Definition get_state (w : world) (id : value) : M value :=
  run! update_states w in
  let! c := get_images in
  match Mongo.find_one [("_id", id)] c with
  | None => raise TypeError
  | Some rec => lift (getitem rec "status")
  end.

(** "Expire an image.  (Not Implemented)": returns an empty dict. *)
Definition expire (auth : string) (system type tag id : value) : M doc :=
  ret ∅.

End imagemngr.

(** ** imagegwapi.create_response *)
Module imagegwapi.

Definition response_fields : list string :=
  ["id"; "system"; "itype"; "tag"; "status"; "userAcl"; "groupAcl";
   "ENV"; "ENTRY"; "WORKDIR"; "last_pull"].

Definition create_response (rec : doc) : doc :=
  foldl (fun resp field =>
           <[field := default (VStr "MISSING") (rec !! field)]> resp)
        ∅ response_fields.

End imagegwapi.

(** ** imagemngr.__init__ and isasystem *)
Module setup.

(** A value of the JSON configuration: a string, a number, a list of
    strings, or an object, of which only the sequence of keys is read
    here. *)
Inductive cfg : Type :=
  | CStr (s : string)
  | CNum (n : nat)
  | CList (l : list string)
  | CDict (keys : list string).

#[global] Instance cfg_eq_dec : EqDecision cfg.
Proof. solve_decision. Defined.

(** What can leave [__init__]. *)
Inductive init_error : Type :=
  | NameError (msg : string)
  | ConfigKeyError (k : string)   (* self.config['MongoDB'] *)
  | NotIterable                   (* for system in a number *)
  | AuthSetupError                (* raised by auth.authentication *)
  | ConnectionError.              (* raised by MongoClient *)

(** [for system in v]: the keys of an object, the items of a list, the
    characters of a string. *)
Definition iterate (v : cfg) : option (list string) :=
  match v with
  | CStr s =>
      Some ((fun a => String a EmptyString) <$> String.list_ascii_of_string s)
  | CNum _ => None
  | CList l => Some l
  | CDict keys => Some keys
  end.

(** The attributes [__init__] sets; [state] holds [images], [tasks] and
    [task_image_id]. *)
Record instance : Type := MkInstance {
  config : gmap string cfg;
  systems : list string;
  state : mngr
}.

(** [__init__] from the parsed configuration file.  [authentication] says
    whether [auth.authentication(config)] returns; [MongoClient uri] is the
    client, if the connection succeeds, as the function from a database
    name to the documents of its [images] collection. *)
Definition init (config : gmap string cfg)
  (authentication : gmap string cfg -> bool)
  (MongoClient : cfg -> option (cfg -> list doc))
  : init_error + instance :=
  match config !! "Platforms" with
  | None => inl (NameError "Platforms not defined")
  | Some platforms =>
      let config :=
        match config !! "Authentication" with
        | None => <["Authentication" := CStr "munge"]> config
        | Some _ => config
        end in
      if negb (authentication config) then inl AuthSetupError
      else
        match iterate platforms with
        | None => inl NotIterable
        | Some systems =>
            match config !! "MongoDBURI" with
            | None => inl (NameError "MongoDBURI not defined")
            | Some uri =>
                match MongoClient uri with
                | None => inl ConnectionError
                | Some client =>
                    match config !! "MongoDB" with
                    | None => inl (ConfigKeyError "MongoDB")
                    | Some db =>
                        inr (MkInstance config systems
                               (Mngr (client db) [] ∅ []))
                    end
                end
            end
        end
  end.

(** "Check if system is a valid platform." *)
Definition isasystem (self : instance) (system : string) : bool :=
  bool_decide (system ∈ systems self).

End setup.

(** ** The command line of imagemngr.py *)
Module cli.



End cli.

(** ** The routes of imagegwapi.py *)
Module routes.

(** The body handed to [jsonify]: a rendered record, the [list] envelope,
    or the message of [not_found]. *)
Inductive payload : Type :=
  | PRecord (d : doc)
  | PList (l : list doc)
  | PMessage (status : nat) (error message : string).

Record response : Type := Response {
  status_code : nat;
  body : payload
}.

Definition jsonify (p : payload) : response := Response 200 p.

(** [not_found(error)], with [url] for [request.url] and [error] already
    turned into a string. *)
Definition not_found (url error : string) : response :=
  Response 404 (PMessage 404 error ("Not Found: " +:+ url)).

(** The methods of [mgr] the routes call.  [mgr] comes from the
    [shifter_imagegw] package, which is not among the source files, so
    the routes take it as given: each method returns or raises. *)
Record manager (session : Type) : Type := Manager {
  new_session : option string -> string -> result session;
  mgr_list : session -> string -> result (option (list doc));
  mgr_lookup : session -> doc -> result (option doc)
}.
Arguments new_session {session} _ _ _.
Arguments mgr_list {session} _ _ _.
Arguments mgr_lookup {session} _ _ _.

Section handlers.

Context {session : Type} (mgr : manager session).
(** [sys.exc_type] and [sys.exc_value] as the format strings print them,
    and [request.url]. *)
Context (exc_type exc_value : exn -> string) (url : string).

(** [list(system)]; [auth] is [request.headers.get(AUTH_HEADER)]. *)
Definition list_ (auth : option string) (system : string) : response :=
  match
    match new_session mgr auth system with
    | Raise e => Raise e
    | Ok session => mgr_list mgr session system
    end
  with
  | Raise e => not_found url (exc_value e)
  | Ok None => not_found url "image not found"
  | Ok (Some records) =>
      jsonify (PList (map imagegwapi.create_response records))
  end.

(** [lookup(system,type,tag)] *)
Definition lookup (auth : option string) (system type tag : string)
  : response :=
  let i : doc :=
    <["tag" := VStr tag]>
      (<["itype" := VStr type]> (<["system" := VStr system]> ∅)) in
  match
    match new_session mgr auth system with
    | Raise e => Raise e
    | Ok session => mgr_lookup mgr session i
    end
  with
  | Raise e => not_found url (exc_type e +:+ " " +:+ exc_value e)
  | Ok None => not_found url "image not found"
  | Ok (Some rec) => jsonify (PRecord (imagegwapi.create_response rec))
  end.

End handlers.

End routes.

(** ** Sequences of calls *)

(** The calls a client makes: the public functions the class docstring
    names (lookup, pull, expire) and [get_state]. *)
Inductive op : Type :=
  | OpLookup (auth : string) (image : doc)
  | OpPull (auth : string) (request : doc) (delay : bool)
  | OpGetState (id : value)
  | OpExpire (auth : string) (system type tag id : value).

(** The manager after one call, whether the call returned or raised. *)
Definition step (w : world) (o : op) (m : mngr) : mngr :=
  match o with
  | OpLookup auth image => (imagemngr.lookup w auth image m).2
  | OpPull auth request delay => (imagemngr.pull w auth request delay m).2
  | OpGetState id => (imagemngr.get_state w id m).2
  | OpExpire auth system type tag id =>
      (imagemngr.expire auth system type tag id m).2
  end.

Fixpoint run (calls : list (world * op)) (m : mngr) : mngr :=
  match calls with
  | [] => m
  | (w, o) :: calls' => run calls' (step w o m)
  end.

(** A manager right after [__init__] on an empty database. *)
Definition fresh_mngr : mngr := Mngr [] [] ∅ [].

(** ** Well-formed states *)

(** Mongo gives every document an [_id] that is not an array; no two
    documents share one. *)
Definition id_ok (d : doc) : bool :=
  match d !! "_id" with
  | None | Some (VList _) => false
  | Some _ => true
  end.

Definition ids (c : list doc) : list (option value) :=
  map (fun d : doc => d !! "_id") c.

Definition wf_store (c : list doc) : Prop :=
  Forall (fun d => id_ok d = true) c /\ NoDup (ids c).

(** Every entry of [self.tasks] is a key of [self.task_image_id]. *)
Definition tracked (m : mngr) : Prop :=
  Forall (fun t => is_Some (task_image_id m !! t)) (tasks m).

Definition wf (m : mngr) : Prop := wf_store (images m) /\ tracked m.

(** The identity key of a document. *)
Definition key_of (d : doc) : option value * option value * option value :=
  (d !! "system", d !! "itype", d !! "tag").

(** ** What a refresh does to one document *)

(** The status [update_mongo_state] stores for a reported state. *)
Definition stored_state (state : string) : string :=
  if decide (state = "SUCCESS") then "READY" else state.

Definition set_status_if (i : value) (state : string) (d : doc) : doc :=
  if Mongo.has_id i d then <["status" := VStr (stored_state state)]> d else d.

(** The effect of [update_states] on a document: the reports of the tasks
    filed under its [_id] are written one after the other. *)
Fixpoint refresh_doc (w : world) (tid : gmap task value) (reqs : list task)
  (d : doc) : doc :=
  match reqs with
  | [] => d
  | req :: reqs' =>
      refresh_doc w tid reqs'
        (match tid !! req with
         | Some i => set_status_if i (imagemngr.task_state w req) d
         | None => d
         end)
  end.

Definition refreshed (w : world) (m : mngr) : list doc :=
  map (refresh_doc w (task_image_id m) (tasks m)) (images m).

Definition with_images (c : list doc) (m : mngr) : mngr :=
  Mngr c (tasks m) (task_image_id m) (queue m).

(** The document stored under an [_id], and its status. *)
Definition find_id (i : value) (c : list doc) : option doc :=
  List.find (Mongo.has_id i) c.

Definition state_of (i : value) (c : list doc) : option value :=
  match find_id i c with
  | Some d => d !! "status"
  | None => None
  end.

(** A function on documents that touches nothing but the status. *)
Definition status_only (f : doc -> doc) : Prop :=
  forall d k, k <> "status" -> f d !! k = d !! k.

(** ** What a pull leaves behind *)

(** The document [new_image_record] inserts when the key is not stored. *)
Definition new_record (request : doc) (c : list doc) : doc :=
  <["_id" := VOid (Mongo.fresh_oid c)]> (request ∪ imagemngr.default_image).

(** The record a pull works on, given what was stored under the key when
    it was called. *)
Definition record_of (request : doc) (m : mngr) (stored : option doc) : doc :=
  match stored with
  | Some rec => rec
  | None => new_record request (images m)
  end.

(** The collection once [new_image_record] has returned. *)
Definition recorded (w : world) (request : doc) (m : mngr)
  (stored : option doc) : list doc :=
  match stored with
  | Some _ => refreshed w m
  | None => refreshed w m ++ [new_record request (images m)]
  end.

(** The manager once the status is ENQUEUED, before the job is handed to
    celery. *)
Definition enqueued (w : world) (request : doc) (i : value) (m : mngr)
  (stored : option doc) : mngr :=
  with_images (map (set_status_if i "ENQUEUED") (recorded w request m stored))
    m.

(** The manager once the job is published and tracked. *)
Definition submitted (w : world) (request : doc) (sys i : value) (m : mngr)
  (stored : option doc) : mngr :=
  Mngr (map (set_status_if i "ENQUEUED") (recorded w request m stored))
       (tasks m ++ [TAsync (length (queue m))])
       (<[TAsync (length (queue m)) := i]> (task_image_id m))
       (queue m ++ [(sys, request)]).

(** The stored record is READY. *)
Definition is_ready (stored : option doc) : bool :=
  match stored with
  | Some rec => bool_decide (rec !! "status" = Some (VStr "READY"))
  | None => false
  end.

(** ** What one call can do to the manager *)

(** The record a pull sets to ENQUEUED, with the collection it is in by
    then: a stored record that was not READY when the pull started, or the
    document the pull has just inserted. *)
Inductive target (w : world) (m : mngr) : list doc -> value -> Prop :=
  | target_stored rec j :
      rec ∈ images m ->
      rec !! "_id" = Some j ->
      rec !! "status" <> Some (VStr "READY") ->
      target w m (refreshed w m) j
  | target_new new j :
      new !! "_id" = Some j ->
      id_ok new = true ->
      Forall (fun d : doc => d !! "_id" <> Some j) (images m) ->
      Forall (fun d : doc => key_of d <> key_of new) (images m) ->
      target w m (refreshed w m ++ [new]) j.

(** The manager after a call, returned or raised: untouched, refreshed, or
    refreshed with one record set to ENQUEUED and perhaps a task tracked
    for it. *)
Inductive stepped (w : world) (m : mngr) : mngr -> Prop :=
  | stepped_same : stepped w m m
  | stepped_refreshed : stepped w m (with_images (refreshed w m) m)
  | stepped_enqueued c j qu :
      target w m c j ->
      stepped w m (Mngr (map (set_status_if j "ENQUEUED") c)
                        (tasks m) (task_image_id m) qu)
  | stepped_tracked c j t qu :
      target w m c j ->
      stepped w m (Mngr (map (set_status_if j "ENQUEUED") c)
                        (tasks m ++ [t]) (<[t := j]> (task_image_id m)) qu).

(** ** Invariants of the collection *)

Definition unique_keys (c : list doc) : Prop := NoDup (map key_of c).

Definition no_success (c : list doc) : Prop :=
  Forall (fun d : doc => d !! "status" <> Some (VStr "SUCCESS")) c.

(** The task reports a state that is stored as READY. *)
Definition reports_ready (w : world) (t : task) : bool :=
  match t with
  | TAsync h => bool_decide (stored_state (async_state w h) = "READY")
  | TObj _ => false
  end.

(** The order the specification puts on statuses:
    UNKNOWN, then ENQUEUED, then PENDING, then READY or FAILURE. *)
Definition spec_rank (status : string) : nat :=
  if decide (status = "UNKNOWN") then 0
  else if decide (status = "ENQUEUED") then 1
  else if decide (status = "PENDING") then 2
  else 3.

Definition spec_advances (s s' : string) : bool :=
  bool_decide (s = s') || bool_decide (spec_rank s < spec_rank s').

(** ** What a call leaves alone *)

(** Two documents that differ at most in their status. *)
Definition same_but_status (d d' : doc) : Prop :=
  forall k, k <> "status" -> d !! k = d' !! k.

(** [c'] holds the documents of [c], in their order and up to their
    status, and perhaps more after them. *)
Definition extends (c c' : list doc) : Prop :=
  exists c1 c2, c' = c1 ++ c2 /\ Forall2 same_but_status c c1.

(** A computation that writes nothing but statuses of stored documents. *)
Definition status_writer {A} (c : M A) : Prop :=
  forall m,
    Forall2 same_but_status (images m) (images (c m).2)
    /\ tasks (c m).2 = tasks m
    /\ task_image_id (c m).2 = task_image_id m
    /\ queue (c m).2 = queue m.

(** A computation that may also insert documents. *)
Definition record_writer {A} (c : M A) : Prop :=
  forall m,
    extends (images m) (images (c m).2)
    /\ tasks (c m).2 = tasks m
    /\ task_image_id (c m).2 = task_image_id m
    /\ queue (c m).2 = queue m.

(** The manager after a pull with [delay=False] whose [dopull] returned:
    the image id itself is the tracked task, nothing is published. *)
Definition pulled_in_process (w : world) (request : doc) (i : value)
  (m : mngr) (stored : option doc) : mngr :=
  Mngr (map (set_status_if i "ENQUEUED") (recorded w request m stored))
       (tasks m ++ [TObj i])
       (<[TObj i := i]> (task_image_id m))
       (queue m).

(** The tasks of [reqs] filed under the image id [i]. *)
Definition filed_under (tid : gmap task value) (i : value)
  (reqs : list task) : list task :=
  filter (fun t => tid !! t = Some i) reqs.

(** The call is a pull. *)
Definition is_pull (o : op) : bool :=
  match o with
  | OpPull _ _ _ => true
  | _ => false
  end.

(** Every entry of [self.task_image_id] names the [_id] of a stored
    document. *)
Definition filed_ids_stored (m : mngr) : Prop :=
  forall t i, task_image_id m !! t = Some i -> Some i ∈ ids (images m).

(** ** States used in the examples *)

Definition edison_ubuntu : doc :=
  list_to_map [("system", VStr "edison"); ("itype", VStr "docker");
               ("tag", VStr "ubuntu:15.04")].

(** Every token is accepted, every task reports [st], the broker and the
    worker are up. *)
Definition w_const (st : string) : world :=
  World (fun _ => true) (fun _ => st) true true.

(** The same environment with a broker that refuses jobs. *)
Definition w_down : world :=
  World (fun _ => true) (fun _ => "PENDING") false true.

(** One pull of ubuntu:15.04 for edison, the job not picked up yet. *)
Definition m_enqueued : mngr :=
  run [(w_const "PENDING", OpPull "good" edison_ubuntu true)] fresh_mngr.

(** The same after a lookup that saw the job picked up. *)
Definition m_pending : mngr :=
  run [(w_const "PENDING", OpLookup "good" edison_ubuntu)] m_enqueued.

(** The same after a lookup that saw the job succeed. *)
Definition m_ready : mngr :=
  run [(w_const "SUCCESS", OpLookup "good" edison_ubuntu)] m_enqueued.

(** The same after a lookup that saw the job fail. *)
Definition m_failure : mngr :=
  run [(w_const "FAILURE", OpLookup "good" edison_ubuntu)] m_enqueued.

Definition q_edison_ubuntu : Mongo.query :=
  [("system", VStr "edison"); ("itype", VStr "docker");
   ("tag", VStr "ubuntu:15.04")].

(** The record of ubuntu:15.04 with a given status. *)
Definition rec_ubuntu (status : string) : doc :=
  <["status" := VStr status]> (new_record edison_ubuntu []).

Definition edison_ubuntu_squashfs : doc :=
  <["format" := VStr "squashfs"]> edison_ubuntu.

(** The same request carrying a status of its own. *)
Definition edison_ubuntu_success : doc :=
  <["status" := VStr "SUCCESS"]> edison_ubuntu.

(** A collection holding one document that has no status field. *)
Definition m_no_status : mngr :=
  Mngr [<["_id" := VOid 0]> edison_ubuntu] [] ∅ [].

#[global] Instance wf_dec m : Decision (wf m).
Proof. unfold wf, wf_store, tracked. apply _. Defined.

(** * Properties *)

(** ** The collection *)
Section collection.

Implicit Types (d : doc) (c : list doc) (q : Mongo.query) (i : value).

Lemma has_id_true i d : Mongo.has_id i d = true <-> d !! "_id" = Some i.
Proof. unfold Mongo.has_id. by rewrite bool_decide_eq_true. Qed.

Lemma has_id_false i d : Mongo.has_id i d = false <-> d !! "_id" <> Some i.
Proof. unfold Mongo.has_id. by rewrite bool_decide_eq_false. Qed.

Lemma matches_id i d :
  id_ok d = true -> Mongo.matches [("_id", i)] d = Mongo.has_id i d.
Proof.
  unfold id_ok, Mongo.matches, Mongo.matches_field, Mongo.has_id. simpl.
  destruct (d !! "_id") as [[| s | l | n]|] eqn:E; try discriminate;
    intros _; rewrite andb_true_r, orb_false_r;
    apply bool_decide_ext; split; congruence.
Qed.

Lemma find_one_id i c :
  Forall (fun d => id_ok d = true) c ->
  Mongo.find_one [("_id", i)] c = find_id i c.
Proof.
  unfold Mongo.find_one, find_id.
  induction 1 as [| d c Hd _ IH]; [done |].
  cbn [List.find]. by rewrite (matches_id i d Hd), IH.
Qed.

Lemma find_id_Some i c d :
  find_id i c = Some d -> d ∈ c /\ d !! "_id" = Some i.
Proof.
  unfold find_id. intros H. apply find_some in H as [Hin Hid].
  split; [by apply list_elem_of_In | by apply has_id_true].
Qed.

Lemma find_id_None i c :
  find_id i c = None <-> Forall (fun d => d !! "_id" <> Some i) c.
Proof.
  unfold find_id. induction c as [| d c IH]; simpl.
  - split; [constructor | done].
  - destruct (Mongo.has_id i d) eqn:E.
    + split; [done |]. intros H. apply Forall_cons in H as [H _].
      by apply has_id_true in E.
    + rewrite IH. apply has_id_false in E. split.
      * by constructor.
      * intros H. by apply Forall_cons in H as [_ H].
Qed.

(** With unique ids the document found under an id is the only one
    carrying it. *)
Lemma find_id_unique i c d :
  NoDup (ids c) -> d ∈ c -> d !! "_id" = Some i -> find_id i c = Some d.
Proof.
  unfold find_id, ids. induction c as [| e c IH]; simpl; intros Hnd Hin Hid.
  - by apply elem_of_nil in Hin.
  - apply NoDup_cons in Hnd as [Hne Hnd].
    apply elem_of_cons in Hin as [-> | Hin].
    + by rewrite (proj2 (has_id_true i e) Hid).
    + destruct (Mongo.has_id i e) eqn:E; [| by apply IH].
      apply has_id_true in E. exfalso. apply Hne.
      rewrite E, <- Hid. apply list_elem_of_fmap. by exists d.
Qed.

(** A single-document update by [_id] touches every document with that
    id, since there is at most one. *)
Lemma update_set_by_id i k v c :
  wf_store c ->
  Mongo.update_set [("_id", i)] k v c
  = map (fun d => if Mongo.has_id i d then <[k := v]> d else d) c.
Proof.
  intros [Hok Hnd]. unfold ids in Hnd.
  induction c as [| d c IH]; [done |].
  cbn [Mongo.update_set map].
  apply Forall_cons in Hok as [Hd Hok].
  apply NoDup_cons in Hnd as [Hne Hnd].
  rewrite (matches_id i d Hd).
  destruct (Mongo.has_id i d) eqn:E; [| by rewrite IH].
  f_equal. apply has_id_true in E.
  clear IH Hok Hnd. induction c as [| e c IH]; simpl; [done |].
  destruct (Mongo.has_id i e) eqn:E'.
  - apply has_id_true in E'. exfalso. apply Hne. simpl.
    rewrite E, E'. by left.
  - rewrite <- IH; [done |]. intros H. apply Hne. simpl. by right.
Qed.

Lemma find_one_map q (f : doc -> doc) c :
  (forall d, Mongo.matches q (f d) = Mongo.matches q d) ->
  Mongo.find_one q (map f c) = f <$> Mongo.find_one q c.
Proof.
  intros Hf. unfold Mongo.find_one.
  induction c as [| d c IH]; [done |].
  cbn [List.find map]. rewrite Hf.
  destruct (Mongo.matches q d); [done | exact IH].
Qed.

Lemma find_id_map i (f : doc -> doc) c :
  (forall d, f d !! "_id" = d !! "_id") ->
  find_id i (map f c) = f <$> find_id i c.
Proof.
  intros Hf. unfold find_id.
  induction c as [| d c IH]; simpl; [done |].
  replace (Mongo.has_id i (f d)) with (Mongo.has_id i d)
    by (unfold Mongo.has_id; by rewrite Hf).
  by destruct (Mongo.has_id i d).
Qed.

Lemma find_one_app_None q c d :
  Mongo.find_one q c = None ->
  Mongo.find_one q (c ++ [d])
  = if Mongo.matches q d then Some d else None.
Proof.
  unfold Mongo.find_one. induction c as [| e c IH]; [done |].
  cbn [List.find app]. destruct (Mongo.matches q e); [done | exact IH].
Qed.

Lemma find_one_elem q c d : Mongo.find_one q c = Some d -> d ∈ c.
Proof.
  intros H. apply find_some in H as [H _]. by apply list_elem_of_In.
Qed.

(** The generated object id is new. *)
Lemma fresh_oid_above c d n :
  d ∈ c -> d !! "_id" = Some (VOid n) -> n < Mongo.fresh_oid c.
Proof.
  unfold Mongo.fresh_oid. induction c as [| e c IH]; simpl; intros Hin Hd.
  - by apply elem_of_nil in Hin.
  - apply elem_of_cons in Hin as [-> | Hin].
    + unfold Mongo.oid_bound. rewrite Hd. lia.
    + specialize (IH Hin Hd). lia.
Qed.

Lemma fresh_oid_new c :
  Forall (fun d => d !! "_id" <> Some (VOid (Mongo.fresh_oid c))) c.
Proof.
  apply Forall_forall. intros d Hin Hd.
  pose proof (fresh_oid_above c d _ Hin Hd). lia.
Qed.

End collection.

(** ** Status-only rewrites of documents *)
Section status_only.

Implicit Types (d : doc) (c : list doc) (f : doc -> doc).

Lemma status_only_id f d : status_only f -> f d !! "_id" = d !! "_id".
Proof. intros Hf. by apply Hf. Qed.

Lemma status_only_has_id f i d :
  status_only f -> Mongo.has_id i (f d) = Mongo.has_id i d.
Proof. intros Hf. unfold Mongo.has_id. by rewrite status_only_id. Qed.

Lemma status_only_matches f q d :
  status_only f -> "status" ∉ q.*1 ->
  Mongo.matches q (f d) = Mongo.matches q d.
Proof.
  intros Hf. unfold Mongo.matches.
  induction q as [| [k v] q IH]; simpl; [done |].
  intros Hq. apply not_elem_of_cons in Hq as [Hk Hq].
  rewrite (IH Hq). f_equal.
  unfold Mongo.matches_field. rewrite Hf; [done | congruence].
Qed.

Lemma status_only_ids f c : status_only f -> ids (map f c) = ids c.
Proof.
  intros Hf. unfold ids. rewrite map_map. apply map_ext.
  intros d. by apply status_only_id.
Qed.

Lemma status_only_wf_store f c :
  status_only f -> wf_store c -> wf_store (map f c).
Proof.
  intros Hf [Hok Hnd]. split.
  - apply Forall_map. eapply Forall_impl; [exact Hok |].
    intros d Hd. simpl. unfold id_ok in *. by rewrite status_only_id.
  - by rewrite status_only_ids.
Qed.

Lemma status_only_key_of f d : status_only f -> key_of (f d) = key_of d.
Proof. intros Hf. unfold key_of. by rewrite !Hf. Qed.

Lemma status_only_set_status_if i s : status_only (set_status_if i s).
Proof.
  intros d k Hk. unfold set_status_if.
  destruct (Mongo.has_id i d); [by rewrite lookup_insert_ne | done].
Qed.

Lemma status_only_refresh_doc w tid reqs :
  status_only (refresh_doc w tid reqs).
Proof.
  induction reqs as [| req reqs IH]; intros d k Hk; simpl; [done |].
  rewrite IH by done. destruct (tid !! req); [| done].
  by apply status_only_set_status_if.
Qed.

(** Writing the status afterwards hides what a refresh did to it. *)
Lemma insert_status_set_status_if v i s d :
  <["status" := v]> (set_status_if i s d) = <["status" := v]> d.
Proof.
  unfold set_status_if. destruct (Mongo.has_id i d); [| done].
  by rewrite insert_insert_eq.
Qed.

Lemma insert_status_refresh_doc v w tid reqs d :
  <["status" := v]> (refresh_doc w tid reqs d) = <["status" := v]> d.
Proof.
  revert d. induction reqs as [| req reqs IH]; intros d; simpl; [done |].
  rewrite IH. destruct (tid !! req); [| done].
  apply insert_status_set_status_if.
Qed.

Lemma image_query_keys image q :
  imagemngr.image_query image = Ok q -> "status" ∉ q.*1.
Proof.
  unfold imagemngr.image_query, getitem.
  destruct (image !! "system"); [| done].
  destruct (image !! "itype"); [| done].
  destruct (image !! "tag"); [| done].
  intros [= <-]. simpl.
  rewrite !not_elem_of_cons. repeat split; try done. apply not_elem_of_nil.
Qed.

End status_only.

(** ** The methods on a well-formed manager *)
Section methods.

Implicit Types (m : mngr) (w : world) (d : doc) (c : list doc).

Lemma update_mongo_state_eq id state m :
  wf_store (images m) ->
  imagemngr.update_mongo_state id state m
  = (Ok tt, with_images (map (set_status_if id state) (images m)) m).
Proof.
  intros Hwf. unfold imagemngr.update_mongo_state, bind, get_images,
    set_images, with_images.
  by rewrite (update_set_by_id _ _ _ _ Hwf).
Qed.

Lemma update_states_loop_eq w reqs m :
  wf_store (images m) ->
  Forall (fun t => is_Some (task_image_id m !! t)) reqs ->
  imagemngr.update_states_loop w reqs m
  = (Ok tt,
     with_images (map (refresh_doc w (task_image_id m) reqs) (images m)) m).
Proof.
  revert m. induction reqs as [| req reqs IH]; intros m Hwf Htr.
  - simpl. unfold ret, with_images. rewrite map_id. by destruct m.
  - apply Forall_cons in Htr as [[i Hi] Htr].
    cbn [imagemngr.update_states_loop refresh_doc]. unfold bind at 1.
    rewrite Hi. unfold bind at 1.
    rewrite (update_mongo_state_eq _ _ _ Hwf).
    rewrite IH; cbn [with_images images task_image_id tasks queue].
    + by rewrite map_map.
    + apply status_only_wf_store; [apply status_only_set_status_if | done].
    + done.
Qed.

Lemma update_states_eq w m :
  wf m -> imagemngr.update_states w m = (Ok tt, with_images (refreshed w m) m).
Proof.
  intros [Hst Htr]. unfold imagemngr.update_states.
  by rewrite update_states_loop_eq.
Qed.

Lemma refreshed_wf w m : wf m -> wf (with_images (refreshed w m) m).
Proof.
  intros [Hst Htr]. split; [| exact Htr].
  apply status_only_wf_store; [apply status_only_refresh_doc | done].
Qed.

Lemma lookup_eq w auth image q m :
  wf m -> authenticate w auth = true ->
  imagemngr.image_query image = Ok q ->
  imagemngr.lookup w auth image m
  = (Ok (refresh_doc w (task_image_id m) (tasks m)
           <$> Mongo.find_one q (images m)),
     with_images (refreshed w m) m).
Proof.
  intros Hwf Hauth Hq. unfold imagemngr.lookup, bind at 1.
  rewrite Hauth. unfold ret at 1, bind at 1, lift. rewrite Hq.
  unfold bind at 1. rewrite (update_states_eq _ _ Hwf).
  unfold bind, get_images, ret. cbn [with_images images].
  unfold refreshed. rewrite find_one_map; [done |].
  intros d. apply status_only_matches;
    [apply status_only_refresh_doc | by eapply image_query_keys].
Qed.

Lemma isready_eq image q m :
  imagemngr.image_query image = Ok q ->
  imagemngr.isready image m
  = (Ok match Mongo.find_one q (images m) with
        | Some rec => bool_decide (rec !! "status" = Some (VStr "READY"))
        | None => false
        end, m).
Proof.
  intros Hq. unfold imagemngr.isready, bind, lift, get_images, ret.
  by rewrite Hq.
Qed.

End methods.

(** ** pull *)
Section pull.

Implicit Types (m : mngr) (w : world) (d rec : doc) (c : list doc).

Lemma fresh_oid_ids c c' :
  ids c = ids c' -> Mongo.fresh_oid c = Mongo.fresh_oid c'.
Proof.
  unfold ids, Mongo.fresh_oid. revert c'.
  induction c as [| d c IH]; intros [| d' c']; simpl; try done.
  intros [= Hd Hc]. rewrite (IH _ Hc). unfold Mongo.oid_bound.
  by rewrite Hd.
Qed.

Lemma refreshed_ids w m : ids (refreshed w m) = ids (images m).
Proof. apply status_only_ids, status_only_refresh_doc. Qed.

Lemma default_image_no_id : imagemngr.default_image !! "_id" = None.
Proof. reflexivity. Qed.

Lemma new_record_id request c :
  new_record request c !! "_id" = Some (VOid (Mongo.fresh_oid c)).
Proof. unfold new_record. apply lookup_insert_eq. Qed.

Lemma record_of_id request m stored :
  wf m -> (forall rec, stored = Some rec -> rec ∈ images m) ->
  exists i, record_of request m stored !! "_id" = Some i.
Proof.
  intros [[Hok _] _] Hin. destruct stored as [rec |]; simpl.
  - specialize (Hin rec eq_refl).
    rewrite Forall_forall in Hok. specialize (Hok rec Hin).
    unfold id_ok in Hok. destruct (rec !! "_id"); [by eexists | done].
  - eexists. apply new_record_id.
Qed.

(** [new_image_record] on a well-formed manager, for a request that
    brings no [_id] of its own. *)
Lemma new_image_record_eq w auth request q m :
  wf m -> authenticate w auth = true ->
  imagemngr.image_query request = Ok q ->
  let stored := Mongo.find_one q (images m) in
  (stored = None -> request !! "_id" = None) ->
  imagemngr.new_image_record w auth request m
  = (Ok match stored with
        | Some rec => refresh_doc w (task_image_id m) (tasks m) rec
        | None => new_record request (images m)
        end,
     with_images (recorded w request m stored) m).
Proof.
  intros Hwf Hauth Hq stored Hnoid. subst stored.
  unfold imagemngr.new_image_record, bind at 1.
  rewrite (lookup_eq _ _ _ _ _ Hwf Hauth Hq).
  destruct (Mongo.find_one q (images m)) as [rec |] eqn:Hrec;
    cbn [fmap option_fmap option_map recorded]; [done |].
  unfold bind, get_images, lift, Mongo.insert_doc, set_images, ret.
  cbn [with_images images tasks task_image_id queue].
  rewrite lookup_union, (Hnoid eq_refl), default_image_no_id.
  cbn [union option_union union_with option_union_with].
  unfold new_record.
  by rewrite (fresh_oid_ids _ _ (refreshed_ids w m)).
Qed.

Lemma recorded_wf_store w request m stored :
  wf m -> wf_store (recorded w request m stored).
Proof.
  intros Hwf. pose proof (refreshed_wf w m Hwf) as [[Hok Hnd] _].
  cbn [with_images images] in Hok, Hnd.
  destruct stored as [rec |]; cbn [recorded]; [done |]. split.
  - apply Forall_app. split; [done |]. constructor; [| constructor].
    unfold id_ok. by rewrite new_record_id.
  - unfold ids in *. rewrite map_app. apply NoDup_app.
    split; [done |]. split; [| apply NoDup_singleton].
    intros o Ho Ho'. cbn [map] in Ho'. apply list_elem_of_singleton in Ho'.
    subst o. rewrite new_record_id in Ho.
    apply list_elem_of_fmap in Ho as (d & Hd & Hin).
    pose proof (fresh_oid_above _ _ _ Hin (eq_sym Hd)) as Hlt.
    fold (ids (refreshed w m)) in Hlt.
    rewrite (fresh_oid_ids _ _ (refreshed_ids w m)) in Hlt. lia.
Qed.

Lemma pull_not_ready_eq w auth request q sys i m :
  wf m -> authenticate w auth = true ->
  imagemngr.image_query request = Ok q ->
  let stored := Mongo.find_one q (images m) in
  (stored = None -> request !! "_id" = None) ->
  request !! "system" = Some sys ->
  is_ready stored = false ->
  record_of request m stored !! "_id" = Some i ->
  imagemngr.pull w auth request true m
  = if broker_up w
    then (Ok i, submitted w request sys i m stored)
    else (Raise BrokerError, enqueued w request i m stored).
Proof.
  intros Hwf Hauth Hq stored Hnoid Hsys Hnr Hid.
  unfold imagemngr.pull, bind at 1.
  rewrite (isready_eq _ _ _ Hq). fold stored. fold (is_ready stored).
  rewrite Hnr. cbn [negb]. unfold bind at 1.
  rewrite (new_image_record_eq _ _ _ _ _ Hwf Hauth Hq Hnoid). fold stored.
  assert (match stored with
          | Some rec => refresh_doc w (task_image_id m) (tasks m) rec
          | None => new_record request (images m)
          end !! "_id" = Some i) as ->.
  { destruct stored; [| done]. cbn [record_of] in Hid.
    by rewrite status_only_id by apply status_only_refresh_doc. }
  cbn [default]. unfold bind at 1.
  rewrite update_mongo_state_eq by apply (recorded_wf_store _ _ _ _ Hwf).
  unfold bind, lift, getitem. rewrite Hsys.
  unfold imagemngr.apply_async. destruct (broker_up w); [| done].
  unfold imagemngr.track, ret. done.
Qed.

Lemma pull_not_ready_in_process_eq w auth request q i m :
  wf m -> authenticate w auth = true ->
  imagemngr.image_query request = Ok q ->
  let stored := Mongo.find_one q (images m) in
  (stored = None -> request !! "_id" = None) ->
  is_ready stored = false ->
  record_of request m stored !! "_id" = Some i ->
  imagemngr.pull w auth request false m
  = if worker_ok w
    then (Ok i, pulled_in_process w request i m stored)
    else (Raise WorkerError, enqueued w request i m stored).
Proof.
  intros Hwf Hauth Hq stored Hnoid Hnr Hid.
  unfold imagemngr.pull, bind at 1.
  rewrite (isready_eq _ _ _ Hq). fold stored. fold (is_ready stored).
  rewrite Hnr. cbn [negb]. unfold bind at 1.
  rewrite (new_image_record_eq _ _ _ _ _ Hwf Hauth Hq Hnoid). fold stored.
  assert (match stored with
          | Some rec => refresh_doc w (task_image_id m) (tasks m) rec
          | None => new_record request (images m)
          end !! "_id" = Some i) as ->.
  { destruct stored; [| done]. cbn [record_of] in Hid.
    by rewrite status_only_id by apply status_only_refresh_doc. }
  cbn [default]. unfold bind at 1.
  rewrite update_mongo_state_eq by apply (recorded_wf_store _ _ _ _ Hwf).
  unfold bind. destruct (worker_ok w); [| done].
  unfold ret, imagemngr.track. done.
Qed.

Lemma image_query_matches image q d :
  imagemngr.image_query image = Ok q ->
  d !! "system" = image !! "system" ->
  d !! "itype" = image !! "itype" ->
  d !! "tag" = image !! "tag" ->
  Mongo.matches q d = true.
Proof.
  unfold imagemngr.image_query, getitem. intros Hq Hs Ht Hg.
  destruct (image !! "system"); [| done].
  destruct (image !! "itype"); [| done].
  destruct (image !! "tag"); [| done].
  injection Hq as <-.
  unfold Mongo.matches, Mongo.matches_field. cbn [forallb fst snd].
  rewrite Hs, Ht, Hg, !bool_decide_eq_true_2 by done. done.
Qed.

Lemma new_record_matches request q c :
  imagemngr.image_query request = Ok q ->
  Mongo.matches q (new_record request c) = true.
Proof.
  intros Hq. pose proof Hq as Hq'. revert Hq'.
  unfold imagemngr.image_query, getitem.
  destruct (request !! "system") eqn:Hs; [| done].
  destruct (request !! "itype") eqn:Ht; [| done].
  destruct (request !! "tag") eqn:Hg; [| done]. intros _.
  apply (image_query_matches request); [done | ..]; unfold new_record;
    (rewrite lookup_insert_ne by done);
    [rewrite Hs | rewrite Ht | rewrite Hg]; by apply lookup_union_Some_l.
Qed.

(** After the status write the key leads to the record the pull worked
    on, with status ENQUEUED and nothing else changed. *)
Lemma enqueued_record w request q i m :
  imagemngr.image_query request = Ok q ->
  let stored := Mongo.find_one q (images m) in
  record_of request m stored !! "_id" = Some i ->
  Mongo.find_one q
    (map (set_status_if i "ENQUEUED") (recorded w request m stored))
  = Some (<["status" := VStr "ENQUEUED"]> (record_of request m stored)).
Proof.
  intros Hq stored Hid. pose proof (image_query_keys _ _ Hq) as Hk.
  assert (forall f, status_only f ->
            forall d, Mongo.matches q (f d) = Mongo.matches q d) as Hm.
  { intros f Hf d. by apply status_only_matches. }
  rewrite find_one_map by apply Hm, status_only_set_status_if.
  assert (Mongo.find_one q (refreshed w m)
          = refresh_doc w (task_image_id m) (tasks m) <$> stored) as Href.
  { apply find_one_map, Hm, status_only_refresh_doc. }
  destruct stored as [rec |] eqn:Hst; cbn [recorded record_of] in *.
  - rewrite Href. cbn [fmap option_fmap option_map]. f_equal.
    unfold set_status_if.
    rewrite status_only_has_id by apply status_only_refresh_doc.
    rewrite (proj2 (has_id_true _ _) Hid).
    apply insert_status_refresh_doc.
  - rewrite (find_one_app_None _ _ _ Href), (new_record_matches _ _ _ Hq).
    cbn [fmap option_fmap option_map]. f_equal.
    unfold set_status_if. by rewrite (proj2 (has_id_true _ _) Hid).
Qed.

Lemma pull_ready w auth request delay q rec i m :
  wf m -> authenticate w auth = true ->
  imagemngr.image_query request = Ok q ->
  Mongo.find_one q (images m) = Some rec ->
  rec !! "status" = Some (VStr "READY") ->
  rec !! "_id" = Some i ->
  imagemngr.pull w auth request delay m
  = (Ok i, with_images (refreshed w m) m).
Proof.
  intros Hwf Hauth Hq Hrec Hst Hid.
  unfold imagemngr.pull, bind at 1.
  rewrite (isready_eq _ _ _ Hq), Hrec, bool_decide_eq_true_2 by done.
  cbn [negb]. unfold bind.
  rewrite (new_image_record_eq _ _ _ _ _ Hwf Hauth Hq), Hrec
    by (rewrite Hrec; discriminate).
  rewrite status_only_id by apply status_only_refresh_doc.
  by rewrite Hid.
Qed.

End pull.

(** ** Claims about pull *)

(** C4. When the record stored for the key is READY, [pull] returns that
    record's [_id] and hands nothing to celery: the queue and the list of
    tracked tasks are what they were. *)
Theorem pull_ready_no_submission w auth request delay q rec i m :
  wf m -> authenticate w auth = true ->
  imagemngr.image_query request = Ok q ->
  Mongo.find_one q (images m) = Some rec ->
  rec !! "status" = Some (VStr "READY") ->
  rec !! "_id" = Some i ->
  (imagemngr.pull w auth request delay m).1 = Ok i
  /\ queue (imagemngr.pull w auth request delay m).2 = queue m
  /\ tasks (imagemngr.pull w auth request delay m).2 = tasks m.
Proof.
  intros Hwf Hauth Hq Hrec Hst Hid.
  by rewrite (pull_ready _ _ _ _ _ _ _ _ Hwf Hauth Hq Hrec Hst Hid).
Qed.

Lemma pull_ready_no_submission_witness :
  (imagemngr.pull (w_const "PENDING") "good" edison_ubuntu true m_ready).1
  = Ok (VOid 0)
  /\ queue (imagemngr.pull (w_const "PENDING") "good" edison_ubuntu true
              m_ready).2 = queue m_ready
  /\ tasks (imagemngr.pull (w_const "PENDING") "good" edison_ubuntu true
              m_ready).2 = tasks m_ready.
Proof.
  apply (pull_ready_no_submission (w_const "PENDING") "good" edison_ubuntu
           true q_edison_ubuntu (rec_ubuntu "READY") (VOid 0) m_ready).
  - compute_done.
  - reflexivity.
  - compute_done.
  - compute_done.
  - compute_done.
  - compute_done.
Defined.

(** C1, as stated, fails.  A pull of a key whose record is ENQUEUED does
    hand a second job to celery. *)
Lemma pull_enqueued_no_submission_refuted :
  ~ (forall w auth request q rec i m,
       wf m -> authenticate w auth = true ->
       imagemngr.image_query request = Ok q ->
       Mongo.find_one q (images m) = Some rec ->
       rec !! "status" = Some (VStr "ENQUEUED")
       \/ rec !! "status" = Some (VStr "PENDING") ->
       rec !! "_id" = Some i ->
       (imagemngr.pull w auth request true m).1 = Ok i
       /\ queue (imagemngr.pull w auth request true m).2 = queue m).
Proof.
  intros H.
  assert (rec_ubuntu "ENQUEUED" !! "status" = Some (VStr "ENQUEUED")
          \/ rec_ubuntu "ENQUEUED" !! "status" = Some (VStr "PENDING")) as Hst
    by (left; compute_done).
  destruct (H (w_const "PENDING") "good" edison_ubuntu q_edison_ubuntu
              (rec_ubuntu "ENQUEUED") (VOid 0) m_enqueued
              ltac:(compute_done) eq_refl ltac:(compute_done)
              ltac:(compute_done) Hst ltac:(compute_done)) as [_ Hq].
  revert Hq. compute_done.
Qed.

(** C1, amended.  When the record stored for the key is ENQUEUED or
    PENDING, [pull] sets its status to ENQUEUED again and leaves the rest
    of the record as it was.  With [delay] and a broker that takes the job
    it returns the record's [_id] and publishes exactly one more job, on
    the queue named by the request's system; when the broker refuses, the
    exception leaves [pull] and nothing is published; without [delay]
    nothing is published either, and the [_id] is returned if [dopull]
    returns.  So a write of ENQUEUED is followed by at most one job. *)
Theorem pull_in_flight_resubmits w auth request delay q sys rec i m :
  wf m -> authenticate w auth = true ->
  imagemngr.image_query request = Ok q ->
  request !! "system" = Some sys ->
  Mongo.find_one q (images m) = Some rec ->
  rec !! "status" = Some (VStr "ENQUEUED")
  \/ rec !! "status" = Some (VStr "PENDING") ->
  rec !! "_id" = Some i ->
  Mongo.find_one q (images (imagemngr.pull w auth request delay m).2)
  = Some (<["status" := VStr "ENQUEUED"]> rec)
  /\ (imagemngr.pull w auth request delay m).1
     = (if delay
        then if broker_up w then Ok i else Raise BrokerError
        else if worker_ok w then Ok i else Raise WorkerError)
  /\ queue (imagemngr.pull w auth request delay m).2
     = (if delay && broker_up w
        then queue m ++ [(sys, request)]
        else queue m).
Proof.
  intros Hwf Hauth Hq Hsys Hrec Hst Hid.
  assert (is_ready (Some rec) = false) as Hnr.
  { apply bool_decide_eq_false_2. by destruct Hst as [-> | ->]. }
  pose proof (enqueued_record w request q i m Hq) as He.
  cbn zeta in He. rewrite Hrec in He. specialize (He Hid).
  destruct delay.
  - pose proof (pull_not_ready_eq w auth request q sys i m Hwf Hauth Hq)
      as Hp.
    cbn zeta in Hp. rewrite Hrec in Hp. rewrite Hp by done.
    destruct (broker_up w);
      cbn [fst snd submitted enqueued with_images queue images andb];
      by rewrite He.
  - pose proof (pull_not_ready_in_process_eq w auth request q i m Hwf Hauth
                  Hq) as Hp.
    cbn zeta in Hp. rewrite Hrec in Hp. rewrite Hp by done.
    destruct (worker_ok w);
      cbn [fst snd pulled_in_process enqueued with_images queue images andb];
      by rewrite He.
Qed.

Lemma pull_in_flight_resubmits_witness :
  Mongo.find_one q_edison_ubuntu
    (images (imagemngr.pull (w_const "PENDING") "good" edison_ubuntu true
               m_enqueued).2)
  = Some (<["status" := VStr "ENQUEUED"]> (rec_ubuntu "ENQUEUED"))
  /\ (imagemngr.pull (w_const "PENDING") "good" edison_ubuntu true
        m_enqueued).1
     = Ok (VOid 0)
  /\ queue (imagemngr.pull (w_const "PENDING") "good" edison_ubuntu true
              m_enqueued).2
     = queue m_enqueued ++ [(VStr "edison", edison_ubuntu)].
Proof.
  apply (pull_in_flight_resubmits (w_const "PENDING") "good" edison_ubuntu
           true q_edison_ubuntu (VStr "edison") (rec_ubuntu "ENQUEUED")
           (VOid 0) m_enqueued).
  - compute_done.
  - reflexivity.
  - compute_done.
  - compute_done.
  - compute_done.
  - left. compute_done.
  - compute_done.
Defined.

(** C3, as stated, fails.  A pull of a key whose record is FAILURE does not
    rewrite the record from the defaults and the caller's fields: a field
    the caller supplies now is not stored. *)
Lemma pull_failure_overwrites_refuted :
  ~ (forall w auth request q sys m,
       wf m -> authenticate w auth = true -> broker_up w = true ->
       imagemngr.image_query request = Ok q ->
       request !! "system" = Some sys ->
       request !! "_id" = None ->
       (Mongo.find_one q (images m) = None
        \/ exists rec, Mongo.find_one q (images m) = Some rec
                       /\ rec !! "status" = Some (VStr "FAILURE")) ->
       exists i rec',
         (imagemngr.pull w auth request true m).1 = Ok i
         /\ queue (imagemngr.pull w auth request true m).2
            = queue m ++ [(sys, request)]
         /\ Mongo.find_one q (images (imagemngr.pull w auth request true m).2)
            = Some rec'
         /\ rec' !! "_id" = Some i
         /\ rec' !! "status" = Some (VStr "ENQUEUED")
         /\ forall k, k <> "_id" -> k <> "status" ->
                      rec' !! k = (request ∪ imagemngr.default_image) !! k).
Proof.
  intros H.
  assert (Mongo.find_one q_edison_ubuntu (images m_failure) = None
          \/ exists rec,
               Mongo.find_one q_edison_ubuntu (images m_failure) = Some rec
               /\ rec !! "status" = Some (VStr "FAILURE")) as Hst.
  { right. exists (rec_ubuntu "FAILURE"). split; compute_done. }
  destruct (H (w_const "PENDING") "good" edison_ubuntu_squashfs
              q_edison_ubuntu (VStr "edison") m_failure
              ltac:(compute_done) eq_refl eq_refl ltac:(compute_done)
              ltac:(compute_done) ltac:(compute_done) Hst)
    as (i & rec' & _ & _ & Hrec' & _ & _ & Hk).
  - specialize (Hk "format"). revert Hrec' Hk.
    assert (Mongo.find_one q_edison_ubuntu
              (images (imagemngr.pull (w_const "PENDING") "good"
                         edison_ubuntu_squashfs true m_failure).2)
            = Some (rec_ubuntu "ENQUEUED")) as -> by compute_done.
    intros [= <-] Hk.
    assert (rec_ubuntu "ENQUEUED" !! "format" = Some (VStr "ext4")) as Hf
      by compute_done.
    assert ((edison_ubuntu_squashfs ∪ imagemngr.default_image) !! "format"
            = Some (VStr "squashfs")) as Hg by compute_done.
    rewrite Hf, Hg in Hk. by specialize (Hk ltac:(done) ltac:(done)).
Qed.

(** C3, amended.  When nothing is stored for the key, [pull] inserts the
    defaults overlaid with the request under a new object id; when the
    stored record is FAILURE, [pull] keeps that record as it is.  Either
    way the record's status becomes ENQUEUED, exactly one job is published,
    on the queue named by the request's system, and the record's [_id] is
    returned. *)
Theorem pull_absent_or_failed w auth request q sys m :
  wf m -> authenticate w auth = true -> broker_up w = true ->
  imagemngr.image_query request = Ok q ->
  request !! "system" = Some sys ->
  request !! "_id" = None ->
  (Mongo.find_one q (images m) = None
   \/ exists rec, Mongo.find_one q (images m) = Some rec
                  /\ rec !! "status" = Some (VStr "FAILURE")) ->
  let rec :=
    match Mongo.find_one q (images m) with
    | Some rec => rec
    | None =>
        <["_id" := VOid (Mongo.fresh_oid (images m))]>
          (request ∪ imagemngr.default_image)
    end in
  exists i,
    rec !! "_id" = Some i
    /\ (imagemngr.pull w auth request true m).1 = Ok i
    /\ queue (imagemngr.pull w auth request true m).2
       = queue m ++ [(sys, request)]
    /\ Mongo.find_one q (images (imagemngr.pull w auth request true m).2)
       = Some (<["status" := VStr "ENQUEUED"]> rec).
Proof.
  intros Hwf Hauth Hbr Hq Hsys Hnoid Hst rec.
  set (stored := Mongo.find_one q (images m)) in *.
  assert (rec = record_of request m stored) as Hrec by done.
  assert (is_ready stored = false) as Hnr.
  { destruct Hst as [-> | (r & -> & Hr)]; [done |].
    apply bool_decide_eq_false_2. by rewrite Hr. }
  destruct (record_of_id request m stored Hwf) as [i Hid].
  { intros r Hr. by apply (find_one_elem q). }
  exists i. rewrite Hrec. split; [done |].
  pose proof (pull_not_ready_eq w auth request q sys i m Hwf Hauth Hq) as Hp.
  pose proof (enqueued_record w request q i m Hq) as He.
  cbn zeta in Hp, He. fold stored in Hp, He.
  rewrite Hp, Hbr by done. cbn [fst snd submitted queue images].
  by rewrite He.
Qed.

Lemma pull_absent_or_failed_witness :
  exists i,
    new_record edison_ubuntu [] !! "_id" = Some i
    /\ (imagemngr.pull (w_const "PENDING") "good" edison_ubuntu true
          fresh_mngr).1 = Ok i
    /\ queue (imagemngr.pull (w_const "PENDING") "good" edison_ubuntu true
                fresh_mngr).2
       = [(VStr "edison", edison_ubuntu)]
    /\ Mongo.find_one q_edison_ubuntu
         (images (imagemngr.pull (w_const "PENDING") "good" edison_ubuntu true
                    fresh_mngr).2)
       = Some (rec_ubuntu "ENQUEUED").
Proof.
  apply (pull_absent_or_failed (w_const "PENDING") "good" edison_ubuntu
           q_edison_ubuntu (VStr "edison") fresh_mngr).
  - compute_done.
  - reflexivity.
  - reflexivity.
  - compute_done.
  - compute_done.
  - compute_done.
  - left. reflexivity.
Defined.

(** C6, as stated, fails.  When celery refuses the job the record is left
    ENQUEUED, not FAILURE. *)
Lemma pull_broker_down_failure_refuted :
  ~ (forall w auth request q m,
       wf m -> authenticate w auth = true -> broker_up w = false ->
       imagemngr.image_query request = Ok q ->
       request !! "_id" = None ->
       is_ready (Mongo.find_one q (images m)) = false ->
       exists e rec',
         (imagemngr.pull w auth request true m).1 = Raise e
         /\ Mongo.find_one q (images (imagemngr.pull w auth request true m).2)
            = Some rec'
         /\ rec' !! "status" = Some (VStr "FAILURE")).
Proof.
  intros H.
  destruct (H w_down "good" edison_ubuntu q_edison_ubuntu fresh_mngr
              ltac:(compute_done) eq_refl eq_refl ltac:(compute_done)
              ltac:(compute_done) eq_refl)
    as (e & rec' & _ & Hrec' & Hst).
  revert Hrec' Hst.
  assert (Mongo.find_one q_edison_ubuntu
            (images (imagemngr.pull w_down "good" edison_ubuntu true
                       fresh_mngr).2)
          = Some (rec_ubuntu "ENQUEUED")) as -> by compute_done.
  intros [= <-].
  assert (rec_ubuntu "ENQUEUED" !! "status" = Some (VStr "ENQUEUED")) as ->
    by compute_done.
  discriminate.
Qed.

(** C6, amended.  When celery refuses the job of a pull that found the key
    absent or not READY, the exception reaches the caller; by then the
    record exists with status ENQUEUED, and it stays so; nothing is
    published and nothing is added to the tracked tasks. *)
Theorem pull_broker_down_raises w auth request q m :
  wf m -> authenticate w auth = true -> broker_up w = false ->
  imagemngr.image_query request = Ok q ->
  request !! "_id" = None ->
  is_ready (Mongo.find_one q (images m)) = false ->
  (imagemngr.pull w auth request true m).1 = Raise BrokerError
  /\ Mongo.find_one q (images (imagemngr.pull w auth request true m).2)
     = Some (<["status" := VStr "ENQUEUED"]>
               (record_of request m (Mongo.find_one q (images m))))
  /\ queue (imagemngr.pull w auth request true m).2 = queue m
  /\ tasks (imagemngr.pull w auth request true m).2 = tasks m.
Proof.
  intros Hwf Hauth Hbr Hq Hnoid Hnr.
  set (stored := Mongo.find_one q (images m)) in *.
  destruct (record_of_id request m stored Hwf) as [i Hid].
  { intros r Hr. by apply (find_one_elem q). }
  assert (exists sys, request !! "system" = Some sys) as [sys Hsys].
  { revert Hq. unfold imagemngr.image_query, getitem.
    destruct (request !! "system"); [by eexists | done]. }
  pose proof (pull_not_ready_eq w auth request q sys i m Hwf Hauth Hq) as Hp.
  pose proof (enqueued_record w request q i m Hq) as He.
  cbn zeta in Hp, He. fold stored in Hp, He.
  rewrite Hp, Hbr by done.
  cbn [fst snd enqueued with_images queue images tasks].
  by rewrite He.
Qed.

Lemma pull_broker_down_raises_witness :
  (imagemngr.pull w_down "good" edison_ubuntu true fresh_mngr).1
  = Raise BrokerError
  /\ Mongo.find_one q_edison_ubuntu
       (images (imagemngr.pull w_down "good" edison_ubuntu true fresh_mngr).2)
     = Some (<["status" := VStr "ENQUEUED"]>
               (record_of edison_ubuntu fresh_mngr
                  (Mongo.find_one q_edison_ubuntu (images fresh_mngr))))
  /\ queue (imagemngr.pull w_down "good" edison_ubuntu true fresh_mngr).2
     = queue fresh_mngr
  /\ tasks (imagemngr.pull w_down "good" edison_ubuntu true fresh_mngr).2
     = tasks fresh_mngr.
Proof.
  apply (pull_broker_down_raises w_down "good" edison_ubuntu q_edison_ubuntu
           fresh_mngr).
  - compute_done.
  - reflexivity.
  - reflexivity.
  - compute_done.
  - compute_done.
  - reflexivity.
Defined.

(** ** Every call, whatever its outcome *)
Section calls.

Implicit Types (m : mngr) (w : world) (d rec : doc) (c : list doc).

Lemma lookup_stepped w auth image m :
  wf m -> stepped w m (imagemngr.lookup w auth image m).2.
Proof.
  intros Hwf. unfold imagemngr.lookup, bind at 1.
  destruct (authenticate w auth); [| constructor].
  unfold ret at 1, bind at 1, lift.
  destruct (imagemngr.image_query image); [| constructor].
  unfold bind at 1. rewrite (update_states_eq _ _ Hwf). constructor.
Qed.

Lemma get_state_stepped w id m :
  wf m -> stepped w m (imagemngr.get_state w id m).2.
Proof.
  intros Hwf. unfold imagemngr.get_state, bind at 1.
  rewrite (update_states_eq _ _ Hwf). unfold bind, get_images.
  destruct (Mongo.find_one _ _); unfold lift, raise; constructor.
Qed.

Lemma find_one_None_keys image q c :
  imagemngr.image_query image = Ok q ->
  Mongo.find_one q c = None ->
  Forall (fun d =>
            key_of d <> (image !! "system", image !! "itype", image !! "tag"))
         c.
Proof.
  intros Hq Hnone. apply Forall_forall. intros d Hin Hk.
  unfold key_of in Hk. injection Hk as Hs Ht Hg.
  pose proof (image_query_matches image q d Hq Hs Ht Hg) as Hm.
  apply list_elem_of_In in Hin.
  by rewrite (find_none _ _ Hnone d Hin) in Hm.
Qed.

Lemma default_image_union_key image q :
  imagemngr.image_query image = Ok q ->
  key_of (image ∪ imagemngr.default_image)
  = (image !! "system", image !! "itype", image !! "tag").
Proof.
  unfold imagemngr.image_query, getitem, key_of.
  destruct (image !! "system") eqn:Hs; [| done].
  destruct (image !! "itype") eqn:Ht; [| done].
  destruct (image !! "tag") eqn:Hg; [| done]. intros _.
  by rewrite (lookup_union_Some_l _ _ _ _ Hs),
    (lookup_union_Some_l _ _ _ _ Ht), (lookup_union_Some_l _ _ _ _ Hg).
Qed.

Lemma existsb_has_id_false j c :
  existsb (Mongo.has_id j) c = false ->
  Forall (fun d => d !! "_id" <> Some j) c.
Proof.
  induction c as [| d c IH]; simpl; [constructor |].
  intros H. apply orb_false_iff in H as [Hd Hc].
  constructor; [by apply has_id_false | by apply IH].
Qed.

(** The four ways [new_image_record] can end. *)
Lemma new_image_record_cases w auth request m :
  wf m ->
  let r := imagemngr.new_image_record w auth request m in
  (exists e, r = (Raise e, m))
  \/ (exists e, r = (Raise e, with_images (refreshed w m) m))
  \/ (exists q rec,
        imagemngr.image_query request = Ok q
        /\ Mongo.find_one q (images m) = Some rec
        /\ r = (Ok (refresh_doc w (task_image_id m) (tasks m) rec),
                with_images (refreshed w m) m))
  \/ (exists q new j,
        imagemngr.image_query request = Ok q
        /\ Mongo.find_one q (images m) = None
        /\ r = (Ok new, with_images (refreshed w m ++ [new]) m)
        /\ new !! "_id" = Some j
        /\ id_ok new = true
        /\ Forall (fun d => d !! "_id" <> Some j) (images m)
        /\ Forall (fun d => key_of d <> key_of new) (images m)).
Proof.
  intros Hwf r.
  assert (r = imagemngr.new_image_record w auth request m) as Hr by done.
  clearbody r. unfold imagemngr.new_image_record, bind in Hr.
  destruct (authenticate w auth) eqn:Hauth.
  2:{ left. exists AuthError. rewrite Hr.
      unfold imagemngr.lookup, bind. by rewrite Hauth. }
  destruct (imagemngr.image_query request) as [q | e] eqn:Hq.
  2:{ left. exists e. rewrite Hr.
      unfold imagemngr.lookup, bind, ret, lift. by rewrite Hauth, Hq. }
  rewrite (lookup_eq _ _ _ _ _ Hwf Hauth Hq) in Hr.
  destruct (Mongo.find_one q (images m)) as [rec |] eqn:Hrec;
    cbn [fmap option_fmap option_map] in Hr.
  { right. right. left. by exists q, rec. }
  right. unfold get_images, lift, set_images, ret in Hr.
  cbn [with_images images tasks task_image_id queue] in Hr.
  pose proof (find_one_None_keys _ _ _ Hq Hrec) as Hkeys.
  rewrite <- (default_image_union_key _ _ Hq) in Hkeys.
  unfold Mongo.insert_doc in Hr.
  destruct ((request ∪ imagemngr.default_image) !! "_id") as [j |] eqn:Hj.
  - assert ((exists l, j = VList l)
            \/ id_ok (request ∪ imagemngr.default_image) = true)
      as [[l ->] | Hok].
    { unfold id_ok. rewrite Hj. destruct j; eauto. }
    { left. by exists WriteError. }
    assert (forall A (x y : A),
              match j with VList _ => x | _ => y end = y) as Hj'.
    { intros. unfold id_ok in Hok. rewrite Hj in Hok. by destruct j. }
    rewrite Hj' in Hr.
    destruct (existsb (Mongo.has_id j) (refreshed w m)) eqn:Hex.
    { left. by exists DuplicateKeyError. }
    right. right. exists q, (request ∪ imagemngr.default_image), j.
    repeat split; try done.
    apply existsb_has_id_false in Hex. unfold refreshed in Hex.
    rewrite Forall_map in Hex. eapply Forall_impl; [exact Hex |].
    intros d Hd. simpl in Hd.
    by rewrite status_only_id in Hd by apply status_only_refresh_doc.
  - right. right.
    rewrite (fresh_oid_ids _ _ (refreshed_ids w m)) in Hr.
    exists q, (new_record request (images m)),
      (VOid (Mongo.fresh_oid (images m))).
    repeat split; try done.
    + apply new_record_id.
    + unfold id_ok. by rewrite new_record_id.
    + apply fresh_oid_new.
    + eapply Forall_impl; [exact Hkeys |]. intros d Hd.
      unfold new_record, key_of in *.
      by rewrite !lookup_insert_ne by done.
Qed.

Lemma wf_store_snoc c new j :
  wf_store c -> new !! "_id" = Some j -> id_ok new = true ->
  Forall (fun d => d !! "_id" <> Some j) c ->
  wf_store (c ++ [new]).
Proof.
  intros [Hok Hnd] Hj Hnew Hfresh. split.
  - apply Forall_app. split; [done |]. by repeat constructor.
  - unfold ids in *. rewrite map_app. apply NoDup_app.
    split; [done |]. split; [| apply NoDup_singleton].
    intros o Ho Ho'. cbn [map] in Ho'. apply list_elem_of_singleton in Ho'.
    subst o. rewrite Hj in Ho.
    apply list_elem_of_fmap in Ho as (d & Hd & Hin).
    rewrite Forall_forall in Hfresh. by apply (Hfresh d Hin).
Qed.

Lemma refreshed_fresh w m j :
  Forall (fun d => d !! "_id" <> Some j) (images m) ->
  Forall (fun d => d !! "_id" <> Some j) (refreshed w m).
Proof.
  intros H. unfold refreshed. apply Forall_map.
  eapply Forall_impl; [exact H |]. intros d Hd. simpl.
  by rewrite status_only_id by apply status_only_refresh_doc.
Qed.

Lemma target_wf_store w m c j : wf m -> target w m c j -> wf_store c.
Proof.
  intros Hwf [rec i Hin Hid Hst | new i Hid Hok Hfresh Hkeys].
  - apply (refreshed_wf w m Hwf).
  - eapply wf_store_snoc; [apply (refreshed_wf w m Hwf) | done.. |].
    by apply refreshed_fresh.
Qed.

(** Once the record to work on is known, the rest of the not-READY
    branch of [pull] ends in one of two shapes. *)
Lemma pull_dispatch_stepped w request (delay : bool) c j m
  (k : task -> M value) :
  wf m -> target w m c j ->
  (forall t m1, (k t m1).2 = m1) ->
  stepped w m
    ((let! pullreq :=
        (if delay then
           let! sys := lift (getitem request "system") in
           imagemngr.apply_async w request sys
         else
           run! (if worker_ok w then ret tt else raise WorkerError) in
           ret (TObj j)) in
      run! imagemngr.track pullreq j in
      k pullreq)
       (with_images (map (set_status_if j "ENQUEUED") c) m)).2.
Proof.
  intros Hwf Ht Hk. unfold bind at 1.
  destruct delay.
  - unfold bind at 1, lift.
    destruct (getitem request "system") as [sys | e];
      [| by apply stepped_enqueued].
    unfold imagemngr.apply_async.
    destruct (broker_up w); [| by apply stepped_enqueued].
    unfold bind, imagemngr.track.
    cbn [with_images images tasks task_image_id queue].
    match goal with
    | |- context [k ?t ?m1] =>
        pose proof (Hk t m1) as Hk'; destruct (k t m1) as [[? | ?] ?]
    end; cbn [snd] in *; subst; by apply stepped_tracked.
  - unfold bind at 1.
    destruct (worker_ok w);
      [unfold ret at 1 | unfold raise; by apply stepped_enqueued].
    unfold ret at 1. unfold bind, imagemngr.track.
    cbn [with_images images tasks task_image_id queue].
    match goal with
    | |- context [k ?t ?m1] =>
        pose proof (Hk t m1) as Hk'; destruct (k t m1) as [[? | ?] ?]
    end; cbn [snd] in *; subst; by apply stepped_tracked.
Qed.

Lemma pull_stepped w auth request delay m :
  wf m -> stepped w m (imagemngr.pull w auth request delay m).2.
Proof.
  intros Hwf. unfold imagemngr.pull, bind at 1.
  destruct (imagemngr.image_query request) as [q | e] eqn:Hq.
  2:{ unfold imagemngr.isready, bind, lift. rewrite Hq. constructor. }
  rewrite (isready_eq _ _ _ Hq).
  fold (is_ready (Mongo.find_one q (images m))).
  destruct (new_image_record_cases w auth request m Hwf)
    as [[e He] | [[e He] | [(q' & rec & Hq' & Hrec & Hr)
                            | (q' & new & j & Hq' & Hrec & Hr & Hj & Hok
                               & Hfresh & Hkeys)]]];
    cbn zeta in *.
  - destruct (negb _); unfold bind at 1; rewrite He; constructor.
  - destruct (negb _); unfold bind at 1; rewrite He; constructor.
  - assert (q' = q) as -> by congruence. rewrite Hrec. cbn [is_ready].
    destruct Hwf as [Hst Htr]. pose proof Hst as [Hids _].
    pose proof (find_one_elem _ _ _ Hrec) as Hin.
    rewrite Forall_forall in Hids. specialize (Hids rec Hin).
    assert (exists j, rec !! "_id" = Some j) as [j Hj].
    { unfold id_ok in Hids. destruct (rec !! "_id"); [by eexists | done]. }
    case_bool_decide as Hready; cbn [negb]; unfold bind at 1; rewrite Hr.
    { unfold ret. constructor. }
    rewrite status_only_id by apply status_only_refresh_doc.
    rewrite Hj. cbn [default]. unfold bind at 1.
    rewrite update_mongo_state_eq
      by apply (refreshed_wf w m (conj Hst Htr)).
    cbn [with_images images tasks task_image_id queue].
    apply (pull_dispatch_stepped w request delay (refreshed w m) j m
             (fun _ => ret j)); [done | | done].
    by apply (target_stored w m rec j).
  - assert (q' = q) as -> by congruence. rewrite Hrec. cbn [is_ready negb].
    unfold bind at 1. rewrite Hr, Hj. cbn [default]. unfold bind at 1.
    assert (target w m (refreshed w m ++ [new]) j) as Ht
      by (by apply target_new).
    rewrite update_mongo_state_eq by apply (target_wf_store _ _ _ _ Hwf Ht).
    cbn [with_images images tasks task_image_id queue].
    by apply (pull_dispatch_stepped w request delay
                (refreshed w m ++ [new]) j m (fun _ => ret j)).
Qed.

Lemma step_stepped w o m : wf m -> stepped w m (step w o m).
Proof.
  intros Hwf. destruct o; cbn [step].
  - by apply lookup_stepped.
  - by apply pull_stepped.
  - by apply get_state_stepped.
  - constructor.
Qed.

End calls.

(** ** What every call preserves *)
Section invariants.

Implicit Types (m : mngr) (w : world) (d rec : doc) (c : list doc).

Lemma stepped_wf w m m' : wf m -> stepped w m m' -> wf m'.
Proof.
  intros Hwf Hs. pose proof Hwf as [Hst Htr].
  destruct Hs as [| | c j qu Ht | c j t qu Ht]; [done | | |].
  - by apply refreshed_wf.
  - split; [| exact Htr].
    apply status_only_wf_store; [apply status_only_set_status_if |].
    by apply (target_wf_store w m c j).
  - split.
    + apply status_only_wf_store; [apply status_only_set_status_if |].
      by apply (target_wf_store w m c j).
    + unfold tracked in *. cbn [tasks task_image_id].
      apply Forall_app. split.
      * eapply Forall_impl; [exact Htr |]. intros t' [x Hx]. simpl.
        destruct (decide (t = t')) as [-> | Hne].
        -- rewrite lookup_insert_eq. by eexists.
        -- rewrite lookup_insert_ne by done. by eexists.
      * repeat constructor. rewrite lookup_insert_eq. by eexists.
Qed.

Lemma run_wf calls m : wf m -> wf (run calls m).
Proof.
  revert m. induction calls as [| [w o] calls IH]; intros m Hwf; [done |].
  simpl. apply IH. eapply stepped_wf; [done |]. by apply step_stepped.
Qed.

(** Every manager reached from a new one is well formed. *)
Lemma reachable_wf calls : wf (run calls fresh_mngr).
Proof. apply run_wf. repeat constructor. Qed.

(** *** One record per key *)

Lemma status_only_unique_keys (f : doc -> doc) c :
  status_only f -> unique_keys c -> unique_keys (map f c).
Proof.
  intros Hf. unfold unique_keys. rewrite map_map.
  assert (map (fun x => key_of (f x)) c = map key_of c) as ->; [| done].
  apply map_ext. intros d. by apply status_only_key_of.
Qed.

Lemma target_unique_keys w m c j :
  unique_keys (images m) -> target w m c j -> unique_keys c.
Proof.
  intros Hu [rec i Hin Hid Hst | new i Hid Hok Hfresh Hkeys].
  - by apply status_only_unique_keys; [apply status_only_refresh_doc |].
  - unfold unique_keys. rewrite map_app. apply NoDup_app. split.
    + by apply status_only_unique_keys; [apply status_only_refresh_doc |].
    + split; [| apply NoDup_singleton].
      intros k Hk Hk'. cbn [map] in Hk'.
      apply list_elem_of_singleton in Hk'. subst k.
      apply list_elem_of_fmap in Hk as (d & Hd & Hin).
      unfold refreshed in Hin.
      apply list_elem_of_fmap in Hin as (d0 & -> & Hin0).
      rewrite status_only_key_of in Hd by apply status_only_refresh_doc.
      rewrite Forall_forall in Hkeys. by apply (Hkeys d0 Hin0).
Qed.

Lemma stepped_unique_keys w m m' :
  unique_keys (images m) -> stepped w m m' -> unique_keys (images m').
Proof.
  intros Hu [| | c j qu Ht | c j t qu Ht]; cbn [images with_images];
    [done | ..]; apply status_only_unique_keys;
    try apply status_only_refresh_doc; try apply status_only_set_status_if;
    try done; by apply (target_unique_keys w m c j).
Qed.

(** *** No stored SUCCESS *)

Lemma stored_state_not_success s : stored_state s <> "SUCCESS".
Proof. unfold stored_state. by case_decide. Qed.

Lemma set_status_if_no_success i s d :
  d !! "status" <> Some (VStr "SUCCESS") ->
  set_status_if i s d !! "status" <> Some (VStr "SUCCESS").
Proof.
  intros Hd. unfold set_status_if. destruct (Mongo.has_id i d); [| done].
  rewrite lookup_insert_eq. intros [= H].
  by apply (stored_state_not_success s).
Qed.

Lemma refresh_doc_no_success w tid reqs d :
  d !! "status" <> Some (VStr "SUCCESS") ->
  refresh_doc w tid reqs d !! "status" <> Some (VStr "SUCCESS").
Proof.
  revert d. induction reqs as [| req reqs IH]; intros d Hd; simpl; [done |].
  apply IH. destruct (tid !! req); [| done].
  by apply set_status_if_no_success.
Qed.

Lemma refreshed_no_success w m :
  no_success (images m) -> no_success (refreshed w m).
Proof.
  intros H. unfold no_success, refreshed. apply Forall_map.
  eapply Forall_impl; [exact H |]. intros d Hd. simpl.
  by apply refresh_doc_no_success.
Qed.

Lemma target_no_success w m c j :
  no_success (images m) -> target w m c j ->
  no_success (map (set_status_if j "ENQUEUED") c).
Proof.
  intros Hn [rec i Hin Hid Hst | new i Hid Hok Hfresh Hkeys];
    unfold no_success; rewrite Forall_map.
  - eapply Forall_impl; [exact (refreshed_no_success w m Hn) |].
    intros d Hd. simpl. by apply set_status_if_no_success.
  - apply Forall_app. split.
    + eapply Forall_impl; [exact (refreshed_no_success w m Hn) |].
      intros d Hd. simpl. by apply set_status_if_no_success.
    + repeat constructor. simpl. unfold set_status_if.
      rewrite (proj2 (has_id_true _ _) Hid), lookup_insert_eq.
      intros [= H].
Qed.

Lemma stepped_no_success w m m' :
  no_success (images m) -> stepped w m m' -> no_success (images m').
Proof.
  intros Hn [| | c j qu Ht | c j t qu Ht]; cbn [images with_images];
    [done | by apply refreshed_no_success | ..];
    by apply (target_no_success w m).
Qed.

(** *** A READY record whose tasks all report success *)

Lemma refresh_doc_ready w tid reqs i d :
  d !! "_id" = Some i ->
  d !! "status" = Some (VStr "READY") ->
  (forall t, tid !! t = Some i -> reports_ready w t = true) ->
  refresh_doc w tid reqs d !! "status" = Some (VStr "READY").
Proof.
  intros Hid Hst Hrep. revert d Hid Hst.
  induction reqs as [| req reqs IH]; intros d Hid Hst; simpl; [done |].
  destruct (tid !! req) as [i' |] eqn:Hreq; [| by apply IH].
  apply IH.
  - by rewrite status_only_id by apply status_only_set_status_if.
  - unfold set_status_if. destruct (Mongo.has_id i' d) eqn:Hh; [| done].
    apply has_id_true in Hh. assert (i' = i) as -> by congruence.
    specialize (Hrep req Hreq). rewrite lookup_insert_eq.
    destruct req as [h | ?]; [| done]. simpl in *.
    apply bool_decide_eq_true in Hrep. by rewrite Hrep.
Qed.

Lemma state_of_map (f : doc -> doc) i c d :
  status_only f -> find_id i c = Some d ->
  state_of i (map f c) = f d !! "status".
Proof.
  intros Hf Hd. unfold state_of.
  rewrite find_id_map by (intros; by apply status_only_id).
  by rewrite Hd.
Qed.

Lemma find_id_app i c c' d :
  find_id i c = Some d -> find_id i (c ++ c') = Some d.
Proof.
  unfold find_id. induction c as [| e c IH]; [done |].
  cbn [List.find app]. destruct (Mongo.has_id i e); [done | exact IH].
Qed.

Lemma target_other w m c j i :
  wf m -> state_of i (images m) = Some (VStr "READY") ->
  target w m c j -> j <> i.
Proof.
  intros [[_ Hnd] _] Hst Ht. unfold state_of in Hst.
  destruct (find_id i (images m)) as [d |] eqn:Hd; [| done].
  destruct Ht as [rec j Hin Hid Hnr | new j Hid Hok Hfresh Hkeys];
    intros ->.
  - rewrite (find_id_unique _ _ _ Hnd Hin Hid) in Hd. congruence.
  - apply find_id_Some in Hd as [Hin Hid'].
    rewrite Forall_forall in Hfresh. by apply (Hfresh d Hin).
Qed.

Lemma target_ready w m c j i :
  wf m -> state_of i (images m) = Some (VStr "READY") ->
  (forall t, task_image_id m !! t = Some i -> reports_ready w t = true) ->
  target w m c j ->
  state_of i (map (set_status_if j "ENQUEUED") c) = Some (VStr "READY").
Proof.
  intros Hwf Hst Hrep Ht.
  pose proof (target_other w m c j i Hwf Hst Ht) as Hne.
  unfold state_of in Hst.
  destruct (find_id i (images m)) as [d |] eqn:Hd; [| done].
  pose proof (find_id_Some _ _ _ Hd) as [_ Hid].
  assert (find_id i c
          = Some (refresh_doc w (task_image_id m) (tasks m) d)) as Hc.
  { assert (find_id i (refreshed w m)
            = Some (refresh_doc w (task_image_id m) (tasks m) d)) as Hr.
    { unfold refreshed. rewrite find_id_map, Hd; [done |].
      intros. apply status_only_id, status_only_refresh_doc. }
    destruct Ht; [done | by apply find_id_app]. }
  rewrite (state_of_map _ _ _ _ (status_only_set_status_if _ _) Hc).
  unfold set_status_if.
  rewrite (proj2 (has_id_false j _)).
  - by apply (refresh_doc_ready w _ _ i).
  - rewrite status_only_id by apply status_only_refresh_doc. congruence.
Qed.

Lemma stepped_ready w m m' i :
  wf m -> state_of i (images m) = Some (VStr "READY") ->
  (forall t, task_image_id m !! t = Some i -> reports_ready w t = true) ->
  stepped w m m' ->
  state_of i (images m') = Some (VStr "READY")
  /\ forall t, task_image_id m' !! t = Some i ->
               task_image_id m !! t = Some i.
Proof.
  intros Hwf Hst Hrep [| | c j qu Ht | c j t qu Ht];
    cbn [images with_images task_image_id].
  - done.
  - split; [| done]. unfold state_of in *.
    destruct (find_id i (images m)) as [d |] eqn:Hd; [| done].
    pose proof (find_id_Some _ _ _ Hd) as [_ Hid].
    unfold refreshed. rewrite find_id_map, Hd.
    + by apply (refresh_doc_ready w _ _ i).
    + intros. apply status_only_id, status_only_refresh_doc.
  - split; [by apply (target_ready w m) | done].
  - split; [by apply (target_ready w m) |].
    intros t' Ht'. destruct (decide (t = t')) as [-> | Hne].
    + rewrite lookup_insert_eq in Ht'. injection Ht' as ->.
      by destruct (target_other w m c i i Hwf Hst Ht).
    + by rewrite lookup_insert_ne in Ht' by done.
Qed.

End invariants.

(** ** Claims about the status of stored records *)

(** C2, as stated, fails.  A record that is PENDING is ENQUEUED again
    after the next pull of its key. *)
Lemma status_only_advances_refuted :
  ~ (forall w o i m s s',
       wf m -> state_of i (images m) = Some (VStr s) ->
       state_of i (images (step w o m)) = Some (VStr s') ->
       spec_advances s s' = true).
Proof.
  intros H.
  specialize (H (w_const "PENDING") (OpPull "good" edison_ubuntu true)
                (VOid 0) m_pending "PENDING" "ENQUEUED"
                ltac:(compute_done) ltac:(compute_done) ltac:(compute_done)).
  revert H. compute_done.
Qed.

(** A refresh that reads PENDING for the task tracked under a READY record
    stores PENDING: [update_states] still visits the tasks of READY
    records (its TODO). *)
Lemma stale_report_overwrites_ready :
  state_of (VOid 0) (images m_ready) = Some (VStr "READY")
  /\ state_of (VOid 0)
       (images (step (w_const "PENDING") (OpGetState (VOid 0)) m_ready))
     = Some (VStr "PENDING").
Proof. split; compute_done. Qed.

(** C2, amended.  [pull] sets a record that is not READY back to ENQUEUED,
    so the status does not only advance.  What holds: a record that is
    READY is READY after every sequence of calls during which every task
    filed under its id reports SUCCESS (or READY). *)
Theorem ready_stays_ready calls i m :
  wf m -> state_of i (images m) = Some (VStr "READY") ->
  (forall t, task_image_id m !! t = Some i ->
             Forall (fun c : world * op => reports_ready c.1 t = true) calls) ->
  state_of i (images (run calls m)) = Some (VStr "READY").
Proof.
  revert m. induction calls as [| [w o] calls IH]; intros m Hwf Hst Hrep;
    [done |].
  cbn [run].
  pose proof (step_stepped w o m Hwf) as Hs.
  destruct (stepped_ready w m (step w o m) i Hwf Hst) as [Hst' Htid];
    [| done |].
  { intros t Ht. specialize (Hrep t Ht).
    by apply Forall_cons in Hrep as [Hrep _]. }
  apply IH; [by eapply stepped_wf | done |].
  intros t Ht. specialize (Hrep t (Htid t Ht)).
  by apply Forall_cons in Hrep as [_ Hrep].
Qed.

Lemma ready_stays_ready_witness :
  state_of (VOid 0)
    (images (run [(w_const "SUCCESS", OpGetState (VOid 0));
                  (w_const "READY", OpPull "good" edison_ubuntu true);
                  (w_const "SUCCESS", OpLookup "good" edison_ubuntu)]
               m_ready))
  = Some (VStr "READY").
Proof.
  apply (ready_stays_ready _ (VOid 0) m_ready).
  - compute_done.
  - compute_done.
  - intros t Ht.
    assert (task_image_id m_ready = {[TAsync 0 := VOid 0]}) as Hm
      by compute_done.
    rewrite Hm in Ht. apply lookup_singleton_Some in Ht as [<- _].
    repeat constructor.
Defined.

(** C10, as stated, fails.  The insert in [new_image_record] writes the
    status of the new record itself, and it is the caller's when the
    request carries one: a request with status SUCCESS is stored with
    status SUCCESS. *)
Lemma insert_writes_status_refuted :
  ~ (forall w auth image m,
       wf m -> no_success (images m) ->
       no_success (images (imagemngr.new_image_record w auth image m).2)).
Proof.
  intros H.
  specialize (H (w_const "PENDING") "good" edison_ubuntu_success fresh_mngr
                ltac:(compute_done) ltac:(compute_done)).
  revert H. compute_done.
Qed.

(** C10, amended.  [update_mongo_state] stores READY on the record of the
    given id when handed SUCCESS, and any other state as it is.  The status
    a record starts with is written by the insert in [new_image_record],
    not by [update_mongo_state]: UNKNOWN, or the status the request
    carries.  No sequence of [lookup], [pull], [get_state] and [expire]
    calls leaves a record with status SUCCESS in a collection that had
    none. *)
Theorem success_is_stored_as_ready calls m :
  wf m -> no_success (images m) ->
  (forall id rec state,
     find_id id (images m) = Some rec ->
     state_of id (images (imagemngr.update_mongo_state id state m).2)
     = Some (VStr (if decide (state = "SUCCESS") then "READY" else state)))
  /\ (forall w auth request q,
        authenticate w auth = true ->
        imagemngr.image_query request = Ok q ->
        Mongo.find_one q (images m) = None ->
        request !! "_id" = None ->
        exists new,
          Mongo.find_one q
            (images (imagemngr.new_image_record w auth request m).2)
          = Some new
          /\ new !! "status"
             = Some (default (VStr "UNKNOWN") (request !! "status")))
  /\ no_success (images (run calls m)).
Proof.
  intros Hwf Hn. split; [| split].
  - intros id rec state Hrec. destruct Hwf as [Hst _].
    rewrite (update_mongo_state_eq _ _ _ Hst). cbn [snd with_images images].
    rewrite (state_of_map _ _ _ _ (status_only_set_status_if _ _) Hrec).
    apply find_id_Some in Hrec as [_ Hid]. unfold set_status_if.
    rewrite (proj2 (has_id_true _ _) Hid). apply lookup_insert_eq.
  - intros w auth request q Hauth Hq Hnone Hnoid.
    pose proof (new_image_record_eq w auth request q m Hwf Hauth Hq) as Hr.
    cbn zeta in Hr. rewrite Hnone in Hr. rewrite Hr by done.
    cbn [snd recorded with_images images].
    exists (new_record request (images m)). split.
    + rewrite find_one_app_None, (new_record_matches _ _ _ Hq); [done |].
      unfold refreshed. rewrite find_one_map, Hnone; [done |].
      intros d. apply status_only_matches;
        [apply status_only_refresh_doc | by eapply image_query_keys].
    + unfold new_record. rewrite lookup_insert_ne by done.
      rewrite lookup_union. by destruct (request !! "status").
  - revert m Hwf Hn.
    induction calls as [| [w o] calls IH]; intros m Hwf Hn; [done |].
    cbn [run]. pose proof (step_stepped w o m Hwf) as Hs.
    apply IH; [by eapply stepped_wf | by eapply stepped_no_success].
Qed.

Lemma success_is_stored_as_ready_witness :
  (forall id rec state,
     find_id id (images m_enqueued) = Some rec ->
     state_of id (images (imagemngr.update_mongo_state id state m_enqueued).2)
     = Some (VStr (if decide (state = "SUCCESS") then "READY" else state)))
  /\ (forall w auth request q,
        authenticate w auth = true ->
        imagemngr.image_query request = Ok q ->
        Mongo.find_one q (images m_enqueued) = None ->
        request !! "_id" = None ->
        exists new,
          Mongo.find_one q
            (images (imagemngr.new_image_record w auth request
                       m_enqueued).2)
          = Some new
          /\ new !! "status"
             = Some (default (VStr "UNKNOWN") (request !! "status")))
  /\ no_success
       (images (run [(w_const "SUCCESS", OpLookup "good" edison_ubuntu);
                     (w_const "SUCCESS", OpGetState (VOid 0));
                     (w_const "SUCCESS",
                      OpPull "good" edison_ubuntu_success true)]
                  m_enqueued)).
Proof.
  apply (success_is_stored_as_ready _ m_enqueued).
  - compute_done.
  - compute_done.
Defined.

(** ** Claims about the collection *)

(** C8.  Starting from a collection with one record per key, every
    sequence of calls ends in a collection with one record per key; and
    [new_image_record] for a key that is stored returns the stored record
    (as refreshed) and inserts nothing. *)
Theorem one_record_per_key calls m :
  wf m -> unique_keys (images m) ->
  unique_keys (images (run calls m))
  /\ forall w auth request q rec,
       authenticate w auth = true ->
       imagemngr.image_query request = Ok q ->
       Mongo.find_one q (images (run calls m)) = Some rec ->
       let m' := run calls m in
       let r := imagemngr.new_image_record w auth request m' in
       r.1 = Ok (refresh_doc w (task_image_id m') (tasks m') rec)
       /\ length (images r.2) = length (images m')
       /\ ids (images r.2) = ids (images m').
Proof.
  intros Hwf Hu. split.
  - revert m Hwf Hu.
    induction calls as [| [w o] calls IH]; intros m Hwf Hu; [done |].
    cbn [run]. pose proof (step_stepped w o m Hwf) as Hs.
    apply IH; [by eapply stepped_wf | by eapply stepped_unique_keys].
  - intros w auth request q rec Hauth Hq Hrec m' r. subst r m'.
    pose proof (run_wf calls m Hwf) as Hwf'.
    pose proof (new_image_record_eq w auth request q _ Hwf' Hauth Hq) as Hr.
    cbn zeta in Hr. rewrite Hrec in Hr.
    rewrite Hr by discriminate. cbn [fst snd recorded with_images images].
    split; [done |]. split; [apply length_map | apply refreshed_ids].
Qed.

Lemma one_record_per_key_witness :
  unique_keys
    (images (run [(w_const "PENDING", OpPull "good" edison_ubuntu true);
                  (w_const "PENDING", OpPull "good" edison_ubuntu true);
                  (w_const "SUCCESS", OpLookup "good" edison_ubuntu)]
               fresh_mngr)).
Proof.
  apply (one_record_per_key _ fresh_mngr).
  - compute_done.
  - apply NoDup_nil_2.
Defined.

(** The scenario of the specification: pull of ubuntu:15.04 for edison on
    an empty store publishes one job on queue edison and leaves the record
    ENQUEUED; once the worker has succeeded, lookup returns the record with
    its tag and status READY. *)
Example scenario_edison_ubuntu :
  queue m_enqueued = [(VStr "edison", edison_ubuntu)]
  /\ state_of (VOid 0) (images m_enqueued) = Some (VStr "ENQUEUED")
  /\ (imagemngr.lookup (w_const "SUCCESS") "good" edison_ubuntu m_enqueued).1
     = Ok (Some (rec_ubuntu "READY"))
  /\ rec_ubuntu "READY" !! "tag" = Some (VStr "ubuntu:15.04")
  /\ rec_ubuntu "READY" !! "status" = Some (VStr "READY").
Proof. repeat split; compute_done. Qed.

(** ** get_state *)

Lemma refresh_doc_has_status w tid reqs d :
  is_Some (d !! "status") -> is_Some (refresh_doc w tid reqs d !! "status").
Proof.
  revert d. induction reqs as [| req reqs IH]; intros d Hd; simpl; [done |].
  apply IH. destruct (tid !! req); [| done]. unfold set_status_if.
  destruct (Mongo.has_id _ d); [| done]. rewrite lookup_insert_eq. by eexists.
Qed.

(** C7, as stated, fails.  For an id that no stored record carries
    [get_state] raises the TypeError of subscripting [None], not a
    not-found error; and a stored record is not enough for it to return a
    status: for one without a status field it raises KeyError. *)
Lemma get_state_not_found_refuted :
  (imagemngr.get_state (w_const "PENDING") (VOid 7) m_enqueued).1
  = Raise TypeError
  /\ ~ (forall w id m rec,
          wf m -> rec ∈ images m -> rec !! "_id" = Some id ->
          exists s, (imagemngr.get_state w id m).1 = Ok s).
Proof.
  split; [compute_done |]. intros H.
  destruct (H (w_const "PENDING") (VOid 0) m_no_status
              (<["_id" := VOid 0]> edison_ubuntu)
              ltac:(compute_done) ltac:(compute_done) ltac:(compute_done))
    as [s Hs].
  assert ((imagemngr.get_state (w_const "PENDING") (VOid 0) m_no_status).1
          = Raise KeyError) as Hk by compute_done.
  rewrite Hk in Hs. discriminate.
Qed.

(** C7, amended.  [get_state] refreshes the tracked tasks.  Then, for an id
    that no stored record carries, it raises the TypeError of subscripting
    the [None] that [find_one] returned; for the id of a stored record it
    returns the status that record has in the collection after the
    refresh, and raises KeyError when the record has none even then (a
    record that had a status before the refresh has one after it). *)
Theorem get_state_spec w id m :
  wf m ->
  images (imagemngr.get_state w id m).2 = refreshed w m
  /\ (Forall (fun d : doc => d !! "_id" <> Some id) (images m) ->
      (imagemngr.get_state w id m).1 = Raise TypeError)
  /\ (forall rec,
        rec ∈ images m -> rec !! "_id" = Some id ->
        (imagemngr.get_state w id m).1
        = match state_of id (images (imagemngr.get_state w id m).2) with
          | Some s => Ok s
          | None => Raise KeyError
          end
        /\ (is_Some (rec !! "status") ->
            is_Some (state_of id (images (imagemngr.get_state w id m).2)))).
Proof.
  intros Hwf.
  assert (imagemngr.get_state w id m
          = (match refresh_doc w (task_image_id m) (tasks m)
                     <$> find_id id (images m) with
             | None => Raise TypeError
             | Some rec => getitem rec "status"
             end, with_images (refreshed w m) m)) as Hg.
  { unfold imagemngr.get_state, bind at 1.
    rewrite (update_states_eq _ _ Hwf). unfold bind, get_images.
    cbn [with_images images].
    rewrite find_one_id by apply (refreshed_wf w m Hwf).
    unfold refreshed. rewrite find_id_map
      by (intros; apply status_only_id, status_only_refresh_doc).
    by destruct (find_id id (images m)). }
  rewrite Hg. cbn [fst snd with_images images]. split; [done |]. split.
  - intros Hnone. apply find_id_None in Hnone. by rewrite Hnone.
  - intros rec Hin Hid. destruct Hwf as [[_ Hnd] _].
    rewrite (find_id_unique _ _ _ Hnd Hin Hid).
    cbn [fmap option_fmap option_map].
    assert (state_of id (refreshed w m)
            = refresh_doc w (task_image_id m) (tasks m) rec !! "status")
      as ->.
    { unfold state_of, refreshed.
      rewrite find_id_map
        by (intros; apply status_only_id, status_only_refresh_doc).
      by rewrite (find_id_unique _ _ _ Hnd Hin Hid). }
    split; [done | apply refresh_doc_has_status].
Qed.

Lemma get_state_spec_witness :
  (imagemngr.get_state (w_const "SUCCESS") (VOid 0) m_enqueued).1
  = Ok (VStr "READY")
  /\ (imagemngr.get_state (w_const "SUCCESS") (VOid 7) m_enqueued).1
     = Raise TypeError.
Proof.
  destruct (get_state_spec (w_const "SUCCESS") (VOid 0) m_enqueued
              ltac:(compute_done)) as (_ & _ & Hsome).
  destruct (get_state_spec (w_const "SUCCESS") (VOid 7) m_enqueued
              ltac:(compute_done)) as (_ & Hnone & _).
  split.
  - destruct (Hsome (rec_ubuntu "ENQUEUED")) as [Hres _];
      [compute_done.. |].
    rewrite Hres. compute_done.
  - apply Hnone. compute_done.
Defined.

(** ** expire *)

(** [expire] returns an empty dict and touches nothing. *)
Lemma expire_eq auth system type tag id m :
  imagemngr.expire auth system type tag id m = (Ok ∅, m).
Proof. reflexivity. Qed.

(** C5 fails on the code.  After [expire] of a stored key, [lookup] still
    returns the record. *)
Theorem expire_keeps_record :
  let m := step (w_const "SUCCESS")
             (OpExpire "good" (VStr "edison") (VStr "docker")
                (VStr "ubuntu:15.04") (VOid 0)) m_ready in
  m = m_ready
  /\ (imagemngr.lookup (w_const "SUCCESS") "good" edison_ubuntu m).1
     = Ok (Some (rec_ubuntu "READY")).
Proof.
  cbn zeta. unfold step. rewrite expire_eq. cbn [snd].
  split; [done | compute_done].
Qed.

(** ** create_response *)

(** C9.  The response has exactly the eleven fields; each carries the
    record's value for it, or the string MISSING when the record has
    none. *)
Theorem create_response_fields rec k :
  imagegwapi.create_response rec !! k
  = if bool_decide (k ∈ imagegwapi.response_fields)
    then Some (default (VStr "MISSING") (rec !! k))
    else None.
Proof.
  unfold imagegwapi.create_response, imagegwapi.response_fields.
  cbn [foldl].
  repeat (rewrite lookup_insert; case_decide;
          [subst k; by rewrite bool_decide_eq_true_2
             by (rewrite !elem_of_cons; tauto) |]).
  rewrite lookup_empty, bool_decide_eq_false_2; [done |].
  rewrite !elem_of_cons, elem_of_nil. intros Hor.
  repeat (destruct Hor as [Hor | Hor]; [congruence |]). done.
Qed.

(** * Further properties of the manager *)

(** ** Computations that write only statuses *)
Section writers.

Implicit Types (m : mngr) (w : world) (d : doc) (c : list doc).

Lemma same_but_status_refl d : same_but_status d d.
Proof. by intros k _. Qed.

Lemma same_but_status_trans d1 d2 d3 :
  same_but_status d1 d2 -> same_but_status d2 d3 -> same_but_status d1 d3.
Proof. intros H1 H2 k Hk. by rewrite H1, H2. Qed.

Lemma same_but_status_all_refl c : Forall2 same_but_status c c.
Proof. induction c; constructor; [apply same_but_status_refl | done]. Qed.

Lemma same_but_status_all_trans c1 c2 c3 :
  Forall2 same_but_status c1 c2 -> Forall2 same_but_status c2 c3 ->
  Forall2 same_but_status c1 c3.
Proof.
  intros H. revert c3. induction H as [| d1 d2 c1 c2 Hd _ IH]; intros c3 H3.
  - by inversion H3.
  - inversion H3 as [| ? d3 ? c3' Hd' Hc']; subst. constructor.
    + by eapply same_but_status_trans.
    + by apply IH.
Qed.

Lemma same_but_status_map (f : doc -> doc) c :
  status_only f -> Forall2 same_but_status c (map f c).
Proof.
  intros Hf. induction c as [| d c IH]; constructor; [| done].
  intros k Hk. by rewrite Hf.
Qed.

Lemma update_set_same_but_status q v c :
  Forall2 same_but_status c (Mongo.update_set q "status" v c).
Proof.
  induction c as [| d c IH]; cbn [Mongo.update_set]; [constructor |].
  destruct (Mongo.matches q d); constructor;
    try apply same_but_status_all_refl; try apply same_but_status_refl;
    try done.
  intros k Hk. by rewrite lookup_insert_ne.
Qed.

Lemma extends_refl c : extends c c.
Proof.
  exists c, []. split; [by rewrite app_nil_r | apply same_but_status_all_refl].
Qed.

Lemma extends_same c c' : Forall2 same_but_status c c' -> extends c c'.
Proof. intros H. exists c', []. by rewrite app_nil_r. Qed.

Lemma extends_trans c1 c2 c3 :
  extends c1 c2 -> extends c2 c3 -> extends c1 c3.
Proof.
  intros (a & b & -> & Ha) (a' & b' & -> & Ha').
  apply Forall2_app_inv_l in Ha' as (x & y & Hx & Hy & ->).
  exists x, (y ++ b'). split; [by rewrite app_assoc |].
  by eapply same_but_status_all_trans.
Qed.

Lemma extends_snoc c c' d : extends c c' -> extends c (c' ++ [d]).
Proof.
  intros (a & b & -> & Ha). exists a, (b ++ [d]). by rewrite app_assoc.
Qed.

Lemma status_writer_ret {A} (a : A) : status_writer (ret a).
Proof. intros m. split; [apply same_but_status_all_refl | done]. Qed.

Lemma status_writer_raise {A} e : status_writer (@raise A e).
Proof. intros m. split; [apply same_but_status_all_refl | done]. Qed.

Lemma status_writer_lift {A} (r : result A) : status_writer (lift r).
Proof. intros m. split; [apply same_but_status_all_refl | done]. Qed.

Lemma status_writer_get_images : status_writer get_images.
Proof. intros m. split; [apply same_but_status_all_refl | done]. Qed.

Lemma status_writer_bind {A B} (c : M A) (k : A -> M B) :
  status_writer c -> (forall a, status_writer (k a)) ->
  status_writer (bind c k).
Proof.
  intros Hc Hk m. unfold bind. specialize (Hc m).
  destruct (c m) as [[a | e] m1]; cbn [snd] in *; [| done].
  destruct Hc as (Hi & Ht & Hd & Hq). specialize (Hk a m1).
  destruct Hk as (Hi' & Ht' & Hd' & Hq').
  split; [by eapply same_but_status_all_trans |].
  by rewrite Ht', Hd', Hq'.
Qed.

Lemma status_writer_update_mongo_state id state :
  status_writer (imagemngr.update_mongo_state id state).
Proof.
  intros m. unfold imagemngr.update_mongo_state, bind, get_images, set_images.
  cbn [snd images tasks task_image_id queue].
  split; [apply update_set_same_but_status | done].
Qed.

Lemma status_writer_update_states_loop w reqs :
  status_writer (imagemngr.update_states_loop w reqs).
Proof.
  induction reqs as [| req reqs IH]; cbn [imagemngr.update_states_loop].
  - apply status_writer_ret.
  - apply status_writer_bind.
    + intros m. destruct (task_image_id m !! req);
        (split; [apply same_but_status_all_refl | done]).
    + intros id. apply status_writer_bind; [| done].
      apply status_writer_update_mongo_state.
Qed.

Lemma status_writer_update_states w : status_writer (imagemngr.update_states w).
Proof.
  intros m. unfold imagemngr.update_states.
  apply status_writer_update_states_loop.
Qed.

Lemma status_writer_lookup w auth image :
  status_writer (imagemngr.lookup w auth image).
Proof.
  unfold imagemngr.lookup.
  apply status_writer_bind.
  { destruct (authenticate w auth);
      [apply status_writer_ret | apply status_writer_raise]. }
  intros _. apply status_writer_bind; [apply status_writer_lift |].
  intros q. apply status_writer_bind; [apply status_writer_update_states |].
  intros _. apply status_writer_bind; [apply status_writer_get_images |].
  intros c. apply status_writer_ret.
Qed.

Lemma status_writer_get_state w id :
  status_writer (imagemngr.get_state w id).
Proof.
  unfold imagemngr.get_state.
  apply status_writer_bind; [apply status_writer_update_states |].
  intros _. apply status_writer_bind; [apply status_writer_get_images |].
  intros c. destruct (Mongo.find_one _ c);
    [apply status_writer_lift | apply status_writer_raise].
Qed.

Lemma status_writer_isready image : status_writer (imagemngr.isready image).
Proof.
  unfold imagemngr.isready.
  apply status_writer_bind; [apply status_writer_lift |].
  intros q. apply status_writer_bind; [apply status_writer_get_images |].
  intros c. apply status_writer_ret.
Qed.

Lemma status_writer_record_writer {A} (c : M A) :
  status_writer c -> record_writer c.
Proof.
  intros H m. destruct (H m) as (Hi & Ht). split; [by apply extends_same | done].
Qed.

Lemma record_writer_bind {A B} (c : M A) (k : A -> M B) :
  record_writer c -> (forall a, record_writer (k a)) ->
  record_writer (bind c k).
Proof.
  intros Hc Hk m. unfold bind. specialize (Hc m).
  destruct (c m) as [[a | e] m1]; cbn [snd] in *; [| done].
  destruct Hc as (Hi & Ht & Hd & Hq). specialize (Hk a m1).
  destruct Hk as (Hi' & Ht' & Hd' & Hq').
  split; [by eapply extends_trans |].
  by rewrite Ht', Hd', Hq'.
Qed.

Lemma record_writer_new_image_record w auth image :
  record_writer (imagemngr.new_image_record w auth image).
Proof.
  unfold imagemngr.new_image_record.
  apply record_writer_bind.
  { apply status_writer_record_writer, status_writer_lookup. }
  intros [rec |].
  { apply status_writer_record_writer, status_writer_ret. }
  intros m. unfold bind, get_images, lift, set_images, ret, Mongo.insert_doc.
  destruct ((image ∪ imagemngr.default_image) !! "_id") as [[| | |] |];
    try destruct (existsb _ _);
    cbn [fst snd images tasks task_image_id queue];
    (split; [| done]);
    try apply extends_refl; apply extends_snoc, extends_refl.
Qed.

End writers.

(** ** What a call adds *)
Section growth.

Implicit Types (m : mngr) (w : world) (d : doc) (c : list doc).

(** What [pull] does to the collection, the tasks and the queue, whatever
    its outcome. *)
Lemma pull_frame w auth request delay m :
  let m' := (imagemngr.pull w auth request delay m).2 in
  extends (images m) (images m')
  /\ ((tasks m' = tasks m /\ task_image_id m' = task_image_id m
       /\ queue m' = queue m)
      \/ (exists i,
            delay = false
            /\ tasks m' = tasks m ++ [TObj i]
            /\ task_image_id m' = <[TObj i := i]> (task_image_id m)
            /\ queue m' = queue m)
      \/ (exists sys i,
            delay = true /\ request !! "system" = Some sys
            /\ tasks m' = tasks m ++ [TAsync (length (queue m))]
            /\ task_image_id m'
               = <[TAsync (length (queue m)) := i]> (task_image_id m)
            /\ queue m' = queue m ++ [(sys, request)])).
Proof.
  cbn zeta. unfold imagemngr.pull, bind.
  pose proof (status_writer_isready request m) as (Hi0 & Ht0 & Hd0 & Hq0).
  destruct (imagemngr.isready request m) as [[ready | e] m0];
    cbn [snd] in *; [| split; [by apply extends_same | by left]].
  pose proof (record_writer_new_image_record w auth request m0)
    as (Hi1 & Ht1 & Hd1 & Hq1).
  assert (extends (images m) (images m0)) as He0 by (by apply extends_same).
  destruct ready; cbn [negb].
  { destruct (imagemngr.new_image_record w auth request m0) as [[rec | e] m1];
      cbn [snd ret] in *;
      (split; [by eapply extends_trans | left; by rewrite Ht1, Hd1, Hq1]). }
  destruct (imagemngr.new_image_record w auth request m0) as [[rec | e] m1];
    cbn [snd] in *;
    [| split; [by eapply extends_trans | left; by rewrite Ht1, Hd1, Hq1]].
  set (id := default VNone (rec !! "_id")).
  pose proof (status_writer_update_mongo_state id "ENQUEUED" m1)
    as (Hi2 & Ht2 & Hd2 & Hq2).
  assert (extends (images m) (images m1)) as He1 by (by eapply extends_trans).
  destruct (imagemngr.update_mongo_state id "ENQUEUED" m1) as [[[] | e] m2];
    cbn [snd] in *.
  2:{ split; [eapply extends_trans; [done | by apply extends_same] |].
      left. by rewrite Ht2, Hd2, Hq2, Ht1, Hd1, Hq1. }
  assert (extends (images m) (images m2)) as He2
    by (eapply extends_trans; [done | by apply extends_same]).
  assert (tasks m2 = tasks m) as Ht by (by rewrite Ht2, Ht1).
  assert (task_image_id m2 = task_image_id m) as Hd by (by rewrite Hd2, Hd1).
  assert (queue m2 = queue m) as Hq by (by rewrite Hq2, Hq1).
  destruct delay.
  - unfold lift, getitem.
    destruct (request !! "system") as [sys |] eqn:Hsys;
      [| split; [done | by left]].
    unfold imagemngr.apply_async.
    destruct (broker_up w); [| split; [done | by left]].
    unfold imagemngr.track, ret.
    cbn [snd images tasks task_image_id queue].
    split; [done |]. right. right. exists sys, id.
    by rewrite Ht, Hd, Hq.
  - destruct (worker_ok w); unfold ret, raise; [| split; [done | by left]].
    unfold imagemngr.track. cbn [snd images tasks task_image_id queue].
    split; [done |]. right. left. exists id. by rewrite Ht, Hd, Hq.
Qed.

Lemma step_status_writer w o m :
  is_pull o = false ->
  Forall2 same_but_status (images m) (images (step w o m))
  /\ tasks (step w o m) = tasks m
  /\ task_image_id (step w o m) = task_image_id m
  /\ queue (step w o m) = queue m.
Proof.
  destruct o; cbn [is_pull step]; [| done | |]; intros _.
  - apply status_writer_lookup.
  - apply status_writer_get_state.
  - split; [apply same_but_status_all_refl | done].
Qed.

Lemma step_grows w o m :
  extends (images m) (images (step w o m))
  /\ tasks m `prefix_of` tasks (step w o m)
  /\ queue m `prefix_of` queue (step w o m).
Proof.
  destruct (is_pull o) eqn:Hp.
  - destruct o; try done. cbn [step].
    destruct (pull_frame w auth request delay m)
      as (He & [(Ht & _ & Hq) | [(i & _ & Ht & _ & Hq)
                                 | (sys & i & _ & _ & Ht & _ & Hq)]]);
      rewrite Ht, Hq; repeat split; try done;
      try (by apply prefix_app_r); by eexists.
  - destruct (step_status_writer w o m Hp) as (Hi & Ht & _ & Hq).
    rewrite Ht, Hq. split; [by apply extends_same | done].
Qed.

End growth.

(** X1.  [lookup], [get_state] and [expire] write nothing but statuses: the
    collection keeps its documents, in order, with every field other than
    the status as it was; the tracked tasks, the task table and the queue
    are untouched. *)
Theorem reads_write_only_statuses w o m :
  is_pull o = false ->
  Forall2 same_but_status (images m) (images (step w o m))
  /\ tasks (step w o m) = tasks m
  /\ task_image_id (step w o m) = task_image_id m
  /\ queue (step w o m) = queue m.
Proof.
  destruct o; cbn [is_pull step]; [| done | |]; intros _.
  - apply status_writer_lookup.
  - apply status_writer_get_state.
  - rewrite expire_eq. cbn [snd].
    split; [apply same_but_status_all_refl | done].
Qed.

Lemma reads_write_only_statuses_witness :
  Forall2 same_but_status (images m_enqueued)
    (images (step (w_const "SUCCESS") (OpLookup "good" edison_ubuntu)
               m_enqueued))
  /\ tasks (step (w_const "SUCCESS") (OpLookup "good" edison_ubuntu)
              m_enqueued) = tasks m_enqueued
  /\ task_image_id (step (w_const "SUCCESS") (OpLookup "good" edison_ubuntu)
                      m_enqueued) = task_image_id m_enqueued
  /\ queue (step (w_const "SUCCESS") (OpLookup "good" edison_ubuntu)
              m_enqueued) = queue m_enqueued.
Proof.
  apply (reads_write_only_statuses (w_const "SUCCESS")
           (OpLookup "good" edison_ubuntu) m_enqueued).
  reflexivity.
Defined.

(** X2.  No sequence of calls deletes or reorders a stored document or
    changes a field of it other than the status; tracked tasks and
    published jobs are only ever appended. *)
Theorem records_tasks_jobs_only_grow calls m :
  extends (images m) (images (run calls m))
  /\ tasks m `prefix_of` tasks (run calls m)
  /\ queue m `prefix_of` queue (run calls m).
Proof.
  revert m. induction calls as [| [w o] calls IH]; intros m; cbn [run].
  - split; [apply extends_refl | done].
  - destruct (step_grows w o m) as (He & Ht & Hq).
    destruct (IH (step w o m)) as (He' & Ht' & Hq').
    split; [by eapply extends_trans |].
    split; by etrans.
Qed.

(** X3.  A call publishes at most one job.  Only a [pull] with [delay]
    publishes one: on the queue named by the request's system, carrying the
    request, and the task tracked for it is the new last entry of
    [self.tasks]. *)
Theorem call_publishes_at_most_one_job w o m :
  queue (step w o m) = queue m
  \/ exists auth request sys,
       o = OpPull auth request true
       /\ request !! "system" = Some sys
       /\ queue (step w o m) = queue m ++ [(sys, request)]
       /\ tasks (step w o m) = tasks m ++ [TAsync (length (queue m))].
Proof.
  destruct (is_pull o) eqn:Hp.
  - destruct o; try done. cbn [step].
    destruct (pull_frame w auth request delay m)
      as (_ & [(_ & _ & Hq) | [(i & _ & _ & _ & Hq)
                               | (sys & i & -> & Hs & Ht & _ & Hq)]]);
      [by left | by left |].
    right. by exists auth, request, sys.
  - left. by destruct (step_status_writer w o m Hp) as (_ & _ & _ & Hq).
Qed.

(** ** The refresh in detail *)
Section refresh.

Implicit Types (m : mngr) (w : world) (d : doc) (c : list doc).

Lemma refresh_doc_no_id w tid reqs d :
  d !! "_id" = None -> refresh_doc w tid reqs d = d.
Proof.
  intros Hd. induction reqs as [| req reqs IH]; cbn [refresh_doc]; [done |].
  destruct (tid !! req) as [i |]; [| done]. unfold set_status_if.
  by rewrite (proj2 (has_id_false i d)) by congruence.
Qed.

(** The last task filed under the document's id decides its status. *)
Lemma refresh_doc_last w tid reqs i d :
  d !! "_id" = Some i ->
  refresh_doc w tid reqs d
  = match last (filed_under tid i reqs) with
    | Some t =>
        <["status" := VStr (stored_state (imagemngr.task_state w t))]> d
    | None => d
    end.
Proof.
  revert d. induction reqs as [| req reqs IH]; intros d Hd; [done |].
  cbn [refresh_doc]. unfold filed_under in *.
  set (d1 := match tid !! req with
             | Some i' => set_status_if i' (imagemngr.task_state w req) d
             | None => d
             end).
  assert (d1 !! "_id" = Some i) as Hd1.
  { unfold d1. destruct (tid !! req); [| done].
    by rewrite status_only_id by apply status_only_set_status_if. }
  rewrite (IH d1 Hd1).
  assert (forall v, <["status" := v]> d1 = <["status" := v]> d) as Hins.
  { intros v. unfold d1. destruct (tid !! req); [| done].
    apply insert_status_set_status_if. }
  destruct (decide (tid !! req = Some i)) as [Hreq | Hreq].
  - rewrite filter_cons_True by done. rewrite last_cons.
    destruct (last (filter _ reqs)); [apply Hins |].
    unfold d1, set_status_if. rewrite Hreq.
    by rewrite (proj2 (has_id_true i d) Hd).
  - rewrite filter_cons_False by done.
    destruct (last (filter _ reqs)); [apply Hins |].
    unfold d1. destruct (tid !! req) as [i' |]; [| done].
    unfold set_status_if.
    by rewrite (proj2 (has_id_false i' d)) by congruence.
Qed.

Lemma refresh_doc_idem w tid reqs d :
  refresh_doc w tid reqs (refresh_doc w tid reqs d) = refresh_doc w tid reqs d.
Proof.
  destruct (d !! "_id") as [i |] eqn:Hd.
  - rewrite (refresh_doc_last w tid reqs i d Hd).
    destruct (last (filed_under tid i reqs)) as [t |] eqn:Hl.
    + rewrite (refresh_doc_last w tid reqs i), Hl
        by (by rewrite lookup_insert_ne).
      by rewrite insert_insert_eq.
    + by rewrite (refresh_doc_last w tid reqs i), Hl.
  - rewrite (refresh_doc_no_id w tid reqs d Hd).
    apply (refresh_doc_no_id w tid reqs d Hd).
Qed.

Lemma refreshed_idem w m :
  refreshed w (with_images (refreshed w m) m) = refreshed w m.
Proof.
  unfold refreshed. cbn [with_images images tasks task_image_id].
  rewrite map_map. apply map_ext. intros d. apply refresh_doc_idem.
Qed.

Lemma get_state_eq w id m :
  wf m ->
  imagemngr.get_state w id m
  = (match refresh_doc w (task_image_id m) (tasks m)
             <$> find_id id (images m) with
     | None => Raise TypeError
     | Some rec => getitem rec "status"
     end, with_images (refreshed w m) m).
Proof.
  intros Hwf. unfold imagemngr.get_state, bind at 1.
  rewrite (update_states_eq _ _ Hwf). unfold bind, get_images.
  cbn [with_images images].
  rewrite find_one_id by apply (refreshed_wf w m Hwf).
  unfold refreshed. rewrite find_id_map
    by (intros; apply status_only_id, status_only_refresh_doc).
  by destruct (find_id id (images m)).
Qed.

(** [get_state] of an id whose last tracked task is [t]. *)
Lemma get_state_last_task w id m reqs t d :
  wf m -> find_id id (images m) = Some d ->
  tasks m = reqs ++ [t] -> task_image_id m !! t = Some id ->
  (imagemngr.get_state w id m).1
  = Ok (VStr (stored_state (imagemngr.task_state w t))).
Proof.
  intros Hwf Hd Hts Ht. rewrite (get_state_eq _ _ _ Hwf), Hd.
  cbn [fst fmap option_fmap option_map].
  pose proof (find_id_Some _ _ _ Hd) as [_ Hid].
  rewrite (refresh_doc_last w _ _ id d Hid), Hts.
  unfold filed_under. rewrite filter_app, filter_cons_True, filter_nil by done.
  rewrite last_snoc. unfold getitem. by rewrite lookup_insert_eq.
Qed.

Lemma target_ids w m c j :
  target w m c j ->
  Some j ∈ ids c /\ forall o, o ∈ ids (images m) -> o ∈ ids c.
Proof.
  intros [rec i Hin Hid Hst | new i Hid Hok Hfresh Hkeys].
  - rewrite refreshed_ids. split; [| done].
    rewrite <- Hid. unfold ids. apply list_elem_of_fmap. by exists rec.
  - unfold ids. rewrite map_app. fold (ids (refreshed w m)).
    rewrite refreshed_ids. cbn [map]. rewrite Hid. split.
    + apply elem_of_app. right. by apply list_elem_of_singleton.
    + intros o Ho. apply elem_of_app. by left.
Qed.

Lemma stepped_filed_ids_stored w m m' :
  filed_ids_stored m -> stepped w m m' -> filed_ids_stored m'.
Proof.
  intros Hf [| | c j qu Ht | c j t qu Ht]; [done | ..];
    intros t' i; cbn [with_images images task_image_id].
  - rewrite refreshed_ids. apply Hf.
  - rewrite status_only_ids by apply status_only_set_status_if.
    intros Hi. by apply (proj2 (target_ids w m c j Ht)), (Hf t').
  - rewrite status_only_ids by apply status_only_set_status_if.
    destruct (decide (t = t')) as [-> | Hne].
    + rewrite lookup_insert_eq. intros [= <-].
      apply (proj1 (target_ids w m c j Ht)).
    + rewrite lookup_insert_ne by done. intros Hi.
      by apply (proj2 (target_ids w m c j Ht)), (Hf t').
Qed.

End refresh.

(** X4.  After [update_states] the status of a stored record is the state
    read for the last entry of [self.tasks] filed under its [_id], with
    SUCCESS stored as READY; a record with no task filed under its id keeps
    its status. *)
Theorem refresh_takes_last_report w i d m :
  wf m -> find_id i (images m) = Some d ->
  state_of i (images (imagemngr.update_states w m).2)
  = match last (filed_under (task_image_id m) i (tasks m)) with
    | Some t => Some (VStr (stored_state (imagemngr.task_state w t)))
    | None => d !! "status"
    end.
Proof.
  intros Hwf Hd. rewrite (update_states_eq _ _ Hwf).
  cbn [snd with_images images].
  pose proof (find_id_Some _ _ _ Hd) as [_ Hid].
  unfold refreshed.
  rewrite (state_of_map _ _ _ _ (status_only_refresh_doc _ _ _) Hd).
  rewrite (refresh_doc_last w _ _ i d Hid).
  destruct (last _); [apply lookup_insert_eq | done].
Qed.

Lemma refresh_takes_last_report_witness :
  state_of (VOid 0)
    (images (imagemngr.update_states (w_const "SUCCESS") m_enqueued).2)
  = match last (filed_under (task_image_id m_enqueued) (VOid 0)
                  (tasks m_enqueued)) with
    | Some t =>
        Some (VStr (stored_state
                      (imagemngr.task_state (w_const "SUCCESS") t)))
    | None => rec_ubuntu "ENQUEUED" !! "status"
    end.
Proof.
  apply (refresh_takes_last_report (w_const "SUCCESS") (VOid 0)
           (rec_ubuntu "ENQUEUED") m_enqueued); compute_done.
Defined.

(** X5.  A second [lookup] under the same answers of celery and [auth]
    returns what the first returned and leaves the manager as the first
    left it. *)
Theorem lookup_twice w auth image m :
  wf m ->
  imagemngr.lookup w auth image (imagemngr.lookup w auth image m).2
  = imagemngr.lookup w auth image m.
Proof.
  intros Hwf.
  destruct (authenticate w auth) eqn:Hauth.
  2:{ unfold imagemngr.lookup, bind. by rewrite Hauth. }
  destruct (imagemngr.image_query image) as [q | e] eqn:Hq.
  2:{ unfold imagemngr.lookup, bind, ret, lift. by rewrite Hauth, Hq. }
  rewrite (lookup_eq _ _ _ _ _ Hwf Hauth Hq). cbn [snd].
  rewrite (lookup_eq _ _ _ _ _ (refreshed_wf w m Hwf) Hauth Hq).
  cbn [with_images images tasks task_image_id queue].
  f_equal.
  - f_equal. unfold refreshed. rewrite find_one_map.
    + destruct (Mongo.find_one q (images m)); [| done].
      cbn [fmap option_fmap option_map]. by rewrite refresh_doc_idem.
    + intros d. apply status_only_matches;
        [apply status_only_refresh_doc | by eapply image_query_keys].
  - pose proof (refreshed_idem w m) as Hi. unfold with_images in *.
    cbn [images tasks task_image_id] in Hi. unfold refreshed at 1.
    cbn [images tasks task_image_id]. unfold refreshed at 1 in Hi.
    cbn [images tasks task_image_id] in Hi. by rewrite Hi.
Qed.

Lemma lookup_twice_witness :
  imagemngr.lookup (w_const "SUCCESS") "good" edison_ubuntu
    (imagemngr.lookup (w_const "SUCCESS") "good" edison_ubuntu m_enqueued).2
  = imagemngr.lookup (w_const "SUCCESS") "good" edison_ubuntu m_enqueued.
Proof.
  apply (lookup_twice (w_const "SUCCESS") "good" edison_ubuntu m_enqueued).
  compute_done.
Defined.

(** X6.  Every entry of [self.task_image_id] names the [_id] of a stored
    document, after every sequence of calls: a refresh never addresses a
    record that is not there. *)
Theorem tracked_ids_are_stored calls m :
  wf m -> filed_ids_stored m -> filed_ids_stored (run calls m).
Proof.
  revert m. induction calls as [| [w o] calls IH]; intros m Hwf Hf; [done |].
  cbn [run]. pose proof (step_stepped w o m Hwf) as Hs.
  apply IH; [by eapply stepped_wf | by eapply stepped_filed_ids_stored].
Qed.

Lemma tracked_ids_are_stored_witness :
  filed_ids_stored
    (run [(w_const "PENDING", OpPull "good" edison_ubuntu true);
          (w_const "PENDING", OpPull "good" edison_ubuntu false);
          (w_const "SUCCESS", OpLookup "good" edison_ubuntu)]
       fresh_mngr).
Proof.
  apply (tracked_ids_are_stored _ fresh_mngr).
  - compute_done.
  - intros t i Ht. cbn in Ht. by rewrite lookup_empty in Ht.
Defined.

(** ** pull, continued *)
Section pull_more.

Implicit Types (m : mngr) (w : world) (d rec : doc) (c : list doc).

Lemma image_query_system request q :
  imagemngr.image_query request = Ok q ->
  exists sys, request !! "system" = Some sys.
Proof.
  unfold imagemngr.image_query, getitem.
  destruct (request !! "system"); [by eexists | done].
Qed.

(** The record a pull has set to ENQUEUED, found by its id. *)
Lemma enqueued_find_id w request q i m :
  wf m -> imagemngr.image_query request = Ok q ->
  let stored := Mongo.find_one q (images m) in
  record_of request m stored !! "_id" = Some i ->
  find_id i (map (set_status_if i "ENQUEUED") (recorded w request m stored))
  = Some (<["status" := VStr "ENQUEUED"]> (record_of request m stored)).
Proof.
  intros Hwf Hq stored Hid.
  pose proof (enqueued_record w request q i m Hq Hid) as He.
  fold stored in He.
  assert (wf_store (map (set_status_if i "ENQUEUED")
                      (recorded w request m stored))) as [_ Hnd].
  { apply status_only_wf_store; [apply status_only_set_status_if |].
    by apply recorded_wf_store. }
  apply (find_id_unique _ _ _ Hnd).
  - by apply (find_one_elem q).
  - by rewrite lookup_insert_ne.
Qed.

(** [pull] returns the id of the record stored for the key. *)
Lemma pull_stored_id w auth request q rec i m :
  wf m -> authenticate w auth = true -> broker_up w = true ->
  imagemngr.image_query request = Ok q ->
  Mongo.find_one q (images m) = Some rec ->
  rec !! "_id" = Some i ->
  (imagemngr.pull w auth request true m).1 = Ok i.
Proof.
  intros Hwf Hauth Hbr Hq Hrec Hid.
  destruct (decide (rec !! "status" = Some (VStr "READY"))) as [Hst | Hst].
  - by rewrite (pull_ready _ _ _ _ _ _ _ _ Hwf Hauth Hq Hrec Hst Hid).
  - destruct (image_query_system _ _ Hq) as [sys Hsys].
    pose proof (pull_not_ready_eq w auth request q sys i m Hwf Hauth Hq) as Hp.
    cbn zeta in Hp. rewrite Hrec in Hp.
    rewrite Hp, Hbr; try done. by apply bool_decide_eq_false_2.
Qed.

Lemma with_images_same m : with_images (images m) m = m.
Proof. by destruct m. Qed.

End pull_more.

(** X7.  After a [pull] that published a job, [get_state] of the returned
    id returns the state celery reports for that job (SUCCESS as READY),
    whatever was tracked for the record before. *)
Theorem pull_then_get_state w auth request q m :
  wf m -> authenticate w auth = true -> broker_up w = true ->
  imagemngr.image_query request = Ok q ->
  (Mongo.find_one q (images m) = None -> request !! "_id" = None) ->
  is_ready (Mongo.find_one q (images m)) = false ->
  exists i,
    (imagemngr.pull w auth request true m).1 = Ok i
    /\ forall w',
         (imagemngr.get_state w' i (imagemngr.pull w auth request true m).2).1
         = Ok (VStr (stored_state (async_state w' (length (queue m))))).
Proof.
  intros Hwf Hauth Hbr Hq Hnoid Hnr.
  set (stored := Mongo.find_one q (images m)) in *.
  destruct (record_of_id request m stored Hwf) as [i Hid].
  { intros r Hr. by apply (find_one_elem q). }
  destruct (image_query_system _ _ Hq) as [sys Hsys].
  pose proof (pull_stepped w auth request true m Hwf) as Hs.
  apply (stepped_wf _ _ _ Hwf) in Hs.
  pose proof (pull_not_ready_eq w auth request q sys i m Hwf Hauth Hq) as Hp.
  cbn zeta in Hp. fold stored in Hp. rewrite Hp, Hbr in * by done.
  cbn [fst snd] in *. exists i. split; [done |]. intros w'.
  apply (get_state_last_task w' i _ (tasks m) (TAsync (length (queue m)))
           (<["status" := VStr "ENQUEUED"]> (record_of request m stored)));
    [done | | done | apply lookup_insert_eq].
  by apply (enqueued_find_id w request q i m).
Qed.

Lemma pull_then_get_state_witness :
  exists i,
    (imagemngr.pull (w_const "PENDING") "good" edison_ubuntu true
       fresh_mngr).1 = Ok i
    /\ forall w',
         (imagemngr.get_state w' i
            (imagemngr.pull (w_const "PENDING") "good" edison_ubuntu true
               fresh_mngr).2).1
         = Ok (VStr (stored_state (async_state w' 0))).
Proof.
  apply (pull_then_get_state (w_const "PENDING") "good" edison_ubuntu
           q_edison_ubuntu fresh_mngr).
  - compute_done.
  - reflexivity.
  - reflexivity.
  - compute_done.
  - compute_done.
  - reflexivity.
Defined.

(** X8.  A [pull] with [delay=False] publishes nothing and tracks the image
    id itself; from then on [get_state] of that id returns PENDING whatever
    celery reports, although [dopull] has already run. *)
Theorem pull_in_process_stays_pending w auth request q m :
  wf m -> authenticate w auth = true -> worker_ok w = true ->
  imagemngr.image_query request = Ok q ->
  (Mongo.find_one q (images m) = None -> request !! "_id" = None) ->
  is_ready (Mongo.find_one q (images m)) = false ->
  exists i,
    (imagemngr.pull w auth request false m).1 = Ok i
    /\ queue (imagemngr.pull w auth request false m).2 = queue m
    /\ tasks (imagemngr.pull w auth request false m).2 = tasks m ++ [TObj i]
    /\ forall w',
         (imagemngr.get_state w' i
            (imagemngr.pull w auth request false m).2).1
         = Ok (VStr "PENDING").
Proof.
  intros Hwf Hauth Hwk Hq Hnoid Hnr.
  set (stored := Mongo.find_one q (images m)) in *.
  destruct (record_of_id request m stored Hwf) as [i Hid].
  { intros r Hr. by apply (find_one_elem q). }
  pose proof (pull_stepped w auth request false m Hwf) as Hs.
  apply (stepped_wf _ _ _ Hwf) in Hs.
  pose proof (pull_not_ready_in_process_eq w auth request q i m Hwf Hauth Hq)
    as Hp.
  cbn zeta in Hp. fold stored in Hp. rewrite Hp, Hwk in * by done.
  cbn [fst snd pulled_in_process queue tasks] in *.
  exists i. repeat split; try done. intros w'.
  rewrite (get_state_last_task w' i _ (tasks m) (TObj i)
             (<["status" := VStr "ENQUEUED"]> (record_of request m stored)));
    [done | done | | done | apply lookup_insert_eq].
  by apply (enqueued_find_id w request q i m).
Qed.

Lemma pull_in_process_stays_pending_witness :
  exists i,
    (imagemngr.pull (w_const "SUCCESS") "good" edison_ubuntu false
       fresh_mngr).1 = Ok i
    /\ queue (imagemngr.pull (w_const "SUCCESS") "good" edison_ubuntu false
                fresh_mngr).2 = queue fresh_mngr
    /\ tasks (imagemngr.pull (w_const "SUCCESS") "good" edison_ubuntu false
                fresh_mngr).2 = tasks fresh_mngr ++ [TObj i]
    /\ forall w',
         (imagemngr.get_state w' i
            (imagemngr.pull (w_const "SUCCESS") "good" edison_ubuntu false
               fresh_mngr).2).1
         = Ok (VStr "PENDING").
Proof.
  apply (pull_in_process_stays_pending (w_const "SUCCESS") "good"
           edison_ubuntu q_edison_ubuntu fresh_mngr).
  - compute_done.
  - reflexivity.
  - reflexivity.
  - compute_done.
  - compute_done.
  - reflexivity.
Defined.

(** X9.  A second [pull] of the same key returns the id the first one
    returned, whether the record is READY by then or not. *)
Theorem pull_again_same_id w1 w2 auth request q m :
  wf m ->
  authenticate w1 auth = true -> broker_up w1 = true ->
  authenticate w2 auth = true -> broker_up w2 = true ->
  imagemngr.image_query request = Ok q ->
  (Mongo.find_one q (images m) = None -> request !! "_id" = None) ->
  exists i,
    (imagemngr.pull w1 auth request true m).1 = Ok i
    /\ (imagemngr.pull w2 auth request true
          (imagemngr.pull w1 auth request true m).2).1 = Ok i.
Proof.
  intros Hwf Ha1 Hb1 Ha2 Hb2 Hq Hnoid.
  set (stored := Mongo.find_one q (images m)) in *.
  pose proof (pull_stepped w1 auth request true m Hwf) as Hs.
  apply (stepped_wf _ _ _ Hwf) in Hs.
  destruct (record_of_id request m stored Hwf) as [i Hid].
  { intros r Hr. by apply (find_one_elem q). }
  exists i.
  destruct (is_ready stored) eqn:Hr.
  - destruct stored as [rec |] eqn:Hst; [| done].
    unfold stored in Hst. cbn [is_ready record_of] in *.
    apply bool_decide_eq_true in Hr.
    rewrite (pull_ready _ _ _ _ _ _ _ _ Hwf Ha1 Hq Hst Hr Hid) in *.
    cbn [fst snd] in *. split; [done |].
    apply (pull_stored_id w2 auth request q
             (refresh_doc w1 (task_image_id m) (tasks m) rec)); try done.
    + cbn [with_images images]. unfold refreshed.
      rewrite find_one_map, Hst; [done |].
      intros d. apply status_only_matches;
        [apply status_only_refresh_doc | by eapply image_query_keys].
    + by rewrite status_only_id by apply status_only_refresh_doc.
  - destruct (image_query_system _ _ Hq) as [sys Hsys].
    pose proof (pull_not_ready_eq w1 auth request q sys i m Hwf Ha1 Hq) as Hp.
    cbn zeta in Hp. fold stored in Hp. rewrite Hp, Hb1 in * by done.
    cbn [fst snd] in *. split; [done |].
    apply (pull_stored_id w2 auth request q
             (<["status" := VStr "ENQUEUED"]> (record_of request m stored)));
      try done.
    + by apply (enqueued_record w1 request q i m).
    + by rewrite lookup_insert_ne.
Qed.

Lemma pull_again_same_id_witness :
  exists i,
    (imagemngr.pull (w_const "PENDING") "good" edison_ubuntu true
       fresh_mngr).1 = Ok i
    /\ (imagemngr.pull (w_const "SUCCESS") "good" edison_ubuntu true
          (imagemngr.pull (w_const "PENDING") "good" edison_ubuntu true
             fresh_mngr).2).1 = Ok i.
Proof.
  apply (pull_again_same_id (w_const "PENDING") (w_const "SUCCESS") "good"
           edison_ubuntu q_edison_ubuntu fresh_mngr).
  - compute_done.
  - reflexivity.
  - reflexivity.
  - reflexivity.
  - reflexivity.
  - compute_done.
  - compute_done.
Defined.

(** X10.  With a token that [auth] rejects, [pull] and [lookup] raise and
    change nothing: no record, no status, no job, no task.  [lookup]
    raises the authentication error before it reads the request; [pull]
    reads the request first, so a request without system, itype or tag
    gets the KeyError instead. *)
Theorem rejected_token_changes_nothing w auth request delay m :
  authenticate w auth = false ->
  imagemngr.pull w auth request delay m
  = (Raise match imagemngr.image_query request with
           | Ok _ => AuthError
           | Raise e => e
           end, m)
  /\ imagemngr.lookup w auth request m = (Raise AuthError, m).
Proof.
  intros Hauth.
  assert (imagemngr.lookup w auth request m = (Raise AuthError, m)) as Hl.
  { unfold imagemngr.lookup, bind. by rewrite Hauth. }
  split; [| done].
  unfold imagemngr.pull, bind at 1.
  destruct (imagemngr.image_query request) as [q | e] eqn:Hq.
  - rewrite (isready_eq _ _ _ Hq).
    destruct (negb _); unfold bind at 1, imagemngr.new_image_record;
      unfold bind at 1; by rewrite Hl.
  - unfold imagemngr.isready, bind, lift. by rewrite Hq.
Qed.

Lemma rejected_token_changes_nothing_witness :
  imagemngr.pull (World (fun _ => false) (fun _ => "PENDING") true true)
    "bad" edison_ubuntu true m_ready
  = (Raise AuthError, m_ready)
  /\ imagemngr.lookup (World (fun _ => false) (fun _ => "PENDING") true true)
       "bad" edison_ubuntu m_ready
     = (Raise AuthError, m_ready).
Proof.
  apply (rejected_token_changes_nothing
           (World (fun _ => false) (fun _ => "PENDING") true true)
           "bad" edison_ubuntu true m_ready).
  reflexivity.
Defined.

(** X11.  [update_mongo_state] for an id that no stored document carries
    changes nothing: the update never inserts. *)
Theorem update_mongo_state_unknown_id id state m :
  wf_store (images m) ->
  Forall (fun d : doc => d !! "_id" <> Some id) (images m) ->
  imagemngr.update_mongo_state id state m = (Ok tt, m).
Proof.
  intros Hwf Hnone. rewrite (update_mongo_state_eq _ _ _ Hwf).
  f_equal. rewrite <- (with_images_same m) at 3. f_equal.
  rewrite <- (map_id (images m)) at 2. apply map_ext_Forall.
  eapply Forall_impl; [exact Hnone |]. intros d Hd. unfold set_status_if.
  by rewrite (proj2 (has_id_false id d) Hd).
Qed.

Lemma update_mongo_state_unknown_id_witness :
  imagemngr.update_mongo_state (VOid 7) "READY" m_enqueued
  = (Ok tt, m_enqueued).
Proof.
  apply (update_mongo_state_unknown_id (VOid 7) "READY" m_enqueued);
    compute_done.
Defined.

(** X12.  On every manager reached from a new one, [lookup] fails only for
    a token that [auth] rejects or for a request without system, itype or
    tag: the refresh itself never raises. *)
Theorem lookup_fails_only_on_token_or_key calls w auth image :
  let r := (imagemngr.lookup w auth image (run calls fresh_mngr)).1 in
  if authenticate w auth
  then match imagemngr.image_query image with
       | Ok _ => exists rec, r = Ok rec
       | Raise e => r = Raise e
       end
  else r = Raise AuthError.
Proof.
  cbn zeta. destruct (authenticate w auth) eqn:Hauth.
  - destruct (imagemngr.image_query image) as [q | e] eqn:Hq.
    + rewrite (lookup_eq _ _ _ _ _ (reachable_wf calls) Hauth Hq).
      by eexists.
    + unfold imagemngr.lookup, bind, ret, lift. by rewrite Hauth, Hq.
  - unfold imagemngr.lookup, bind. by rewrite Hauth.
Qed.

(** ** The response shaper, the routes, the command line, the constructor *)
Section front.

Lemma create_response_field rec k :
  k ∈ imagegwapi.response_fields ->
  imagegwapi.create_response rec !! k
  = Some (default (VStr "MISSING") (rec !! k)).
Proof.
  unfold imagegwapi.create_response, imagegwapi.response_fields.
  cbn [foldl]. rewrite !elem_of_cons, elem_of_nil. intros Hk.
  repeat (rewrite lookup_insert; case_decide; [by subst k |]).
  repeat (destruct Hk as [Hk | Hk]; [congruence |]). done.
Qed.

Lemma create_response_other rec k :
  k ∉ imagegwapi.response_fields ->
  imagegwapi.create_response rec !! k = None.
Proof.
  unfold imagegwapi.create_response, imagegwapi.response_fields.
  cbn [foldl]. rewrite !elem_of_cons, elem_of_nil. intros Hk.
  repeat (rewrite lookup_insert; case_decide;
          [exfalso; apply Hk; subst k; tauto |]).
  apply lookup_empty.
Qed.

End front.

(** X13.  Rendering a rendered record changes nothing:
    [create_response(create_response(rec))] is [create_response(rec)]. *)
Theorem create_response_twice rec :
  imagegwapi.create_response (imagegwapi.create_response rec)
  = imagegwapi.create_response rec.
Proof.
  apply map_eq. intros k.
  destruct (decide (k ∈ imagegwapi.response_fields)) as [Hk | Hk].
  - by rewrite (create_response_field _ k Hk), (create_response_field rec k Hk).
  - by rewrite !create_response_other.
Qed.

(** X14.  The [list] route answers 200 exactly when the manager accepted
    the session and returned a list of records: the body then holds one
    rendered record per record, in the records' order (an empty list gives
    an empty body list, still 200).  In every other case, an exception of
    any kind or [None], it answers 404 with the not-found message. *)
Theorem list_route_response {session} (mgr : routes.manager session)
  (exc_value : exn -> string) (url : string) auth system :
  let resp := routes.list_ mgr exc_value url auth system in
  (routes.status_code resp = 200
   /\ exists s records l,
        routes.new_session mgr auth system = Ok s
        /\ routes.mgr_list mgr s system = Ok (Some records)
        /\ routes.body resp = routes.PList l
        /\ length l = length records
        /\ forall n rec,
             records !! n = Some rec ->
             l !! n = Some (imagegwapi.create_response rec))
  \/ (routes.status_code resp = 404
      /\ (forall s records,
            routes.new_session mgr auth system = Ok s ->
            routes.mgr_list mgr s system <> Ok (Some records))
      /\ exists error,
           routes.body resp
           = routes.PMessage 404 error ("Not Found: " +:+ url)).
Proof.
  cbn zeta. unfold routes.list_.
  destruct (routes.new_session mgr auth system) as [s | e] eqn:Hs.
  2:{ right. repeat split; [done | by eexists]. }
  destruct (routes.mgr_list mgr s system) as [[records |] | e] eqn:Hl.
  - left. split; [done |].
    exists s, records, (map imagegwapi.create_response records).
    repeat split; try done; [apply length_map |].
    intros n rec Hn. by rewrite list_lookup_fmap, Hn.
  - right. repeat split.
    + intros s' records [= <-]. by rewrite Hl.
    + by eexists.
  - right. repeat split.
    + intros s' records [= <-]. by rewrite Hl.
    + by eexists.
Qed.

(** X15.  The [lookup] route asks the manager for the key built from its
    path, [{system, itype: type, tag}].  It answers 200 with the rendered
    record exactly when the manager returned a record; [None] and every
    exception give the same 404. *)
Theorem lookup_route_response {session} (mgr : routes.manager session)
  (exc_type exc_value : exn -> string) (url : string) auth system type tag :
  let resp := routes.lookup mgr exc_type exc_value url auth system type tag in
  let i : doc :=
    <["tag" := VStr tag]>
      (<["itype" := VStr type]> (<["system" := VStr system]> ∅)) in
  (exists s rec,
     routes.new_session mgr auth system = Ok s
     /\ routes.mgr_lookup mgr s i = Ok (Some rec)
     /\ resp = routes.Response 200
                 (routes.PRecord (imagegwapi.create_response rec)))
  \/ (routes.status_code resp = 404
      /\ (forall s rec,
            routes.new_session mgr auth system = Ok s ->
            routes.mgr_lookup mgr s i <> Ok (Some rec))
      /\ exists error,
           routes.body resp
           = routes.PMessage 404 error ("Not Found: " +:+ url)).
Proof.
  cbn zeta. unfold routes.lookup.
  destruct (routes.new_session mgr auth system) as [s | e] eqn:Hs.
  2:{ right. repeat split; [done | by eexists]. }
  destruct (routes.mgr_lookup mgr s _) as [[rec |] | e] eqn:Hl.
  - left. by exists s, rec.
  - right. repeat split.
    + intros s' rec [= <-]. by rewrite Hl.
    + by eexists.
  - right. repeat split.
    + intros s' rec [= <-]. by rewrite Hl.
    + by eexists.
Qed.


(** X17.  [isasystem] of a manager built by [__init__] is true exactly for
    the names met when iterating over the configured Platforms (the keys,
    when it is an object); the manager starts with no task, and is well
    formed whenever the collection Mongo hands over is. *)
Theorem init_then_isasystem config authentication MongoClient self system :
  setup.init config authentication MongoClient = inr self ->
  (setup.isasystem self system = true
   <-> exists platforms names,
         config !! "Platforms" = Some platforms
         /\ setup.iterate platforms = Some names
         /\ system ∈ names)
  /\ tasks (setup.state self) = []
  /\ task_image_id (setup.state self) = ∅
  /\ (wf_store (images (setup.state self)) -> wf (setup.state self)).
Proof.
  unfold setup.init.
  destruct (config !! "Platforms") as [platforms |] eqn:Hp; [| done].
  destruct (negb _); [done |].
  destruct (setup.iterate platforms) as [names |] eqn:Hn; [| done].
  destruct (_ !! "MongoDBURI") as [uri |]; [| done].
  destruct (MongoClient uri) as [client |]; [| done].
  destruct (_ !! "MongoDB") as [db |]; [| done].
  intros [= <-]. cbn [setup.state setup.systems tasks task_image_id images].
  unfold setup.isasystem. cbn [setup.systems].
  rewrite bool_decide_eq_true.
  split; [split | split; [done | split; [done |]]].
  - intros Hin. by exists platforms, names.
  - intros (p & ns & [= <-] & Hns & Hin). congruence.
  - intros Hw. split; [exact Hw | constructor].
Qed.

Lemma init_then_isasystem_witness :
  let config : gmap string setup.cfg :=
    <["Platforms" := setup.CDict ["edison"; "cori"]]>
      (<["MongoDBURI" := setup.CStr "mongodb://localhost/"]>
         (<["MongoDB" := setup.CStr "Shifter"]> ∅)) in
  let self :=
    setup.MkInstance (<["Authentication" := setup.CStr "munge"]> config)
      ["edison"; "cori"] fresh_mngr in
  (setup.isasystem self "cori" = true
   <-> exists platforms names,
         config !! "Platforms" = Some platforms
         /\ setup.iterate platforms = Some names
         /\ "cori" ∈ names)
  /\ tasks (setup.state self) = []
  /\ task_image_id (setup.state self) = ∅
  /\ (wf_store (images (setup.state self)) -> wf (setup.state self)).
Proof.
  cbn zeta.
  apply (init_then_isasystem _ (fun _ => true) (fun _ => Some (fun _ => []))).
  compute_done.
Defined.

(** X18.  When [dopull], run in process by a [pull] with [delay=False],
    raises, the exception reaches the caller; the record is already
    ENQUEUED and stays so, and neither a task nor a job is added. *)
Theorem pull_in_process_worker_raises w auth request q m :
  wf m -> authenticate w auth = true -> worker_ok w = false ->
  imagemngr.image_query request = Ok q ->
  (Mongo.find_one q (images m) = None -> request !! "_id" = None) ->
  is_ready (Mongo.find_one q (images m)) = false ->
  (imagemngr.pull w auth request false m).1 = Raise WorkerError
  /\ Mongo.find_one q (images (imagemngr.pull w auth request false m).2)
     = Some (<["status" := VStr "ENQUEUED"]>
               (record_of request m (Mongo.find_one q (images m))))
  /\ tasks (imagemngr.pull w auth request false m).2 = tasks m
  /\ queue (imagemngr.pull w auth request false m).2 = queue m.
Proof.
  intros Hwf Hauth Hwk Hq Hnoid Hnr.
  set (stored := Mongo.find_one q (images m)) in *.
  destruct (record_of_id request m stored Hwf) as [i Hid].
  { intros r Hr. by apply (find_one_elem q). }
  pose proof (pull_not_ready_in_process_eq w auth request q i m Hwf Hauth Hq)
    as Hp.
  pose proof (enqueued_record w request q i m Hq) as He.
  cbn zeta in Hp, He. fold stored in Hp, He.
  rewrite Hp, Hwk by done.
  cbn [fst snd enqueued with_images queue images tasks].
  by rewrite He.
Qed.

Lemma pull_in_process_worker_raises_witness :
  (imagemngr.pull (World (fun _ => true) (fun _ => "PENDING") true false)
     "good" edison_ubuntu false fresh_mngr).1 = Raise WorkerError
  /\ Mongo.find_one q_edison_ubuntu
       (images (imagemngr.pull
                  (World (fun _ => true) (fun _ => "PENDING") true false)
                  "good" edison_ubuntu false fresh_mngr).2)
     = Some (<["status" := VStr "ENQUEUED"]>
               (record_of edison_ubuntu fresh_mngr
                  (Mongo.find_one q_edison_ubuntu (images fresh_mngr))))
  /\ tasks (imagemngr.pull
              (World (fun _ => true) (fun _ => "PENDING") true false)
              "good" edison_ubuntu false fresh_mngr).2 = tasks fresh_mngr
  /\ queue (imagemngr.pull
              (World (fun _ => true) (fun _ => "PENDING") true false)
              "good" edison_ubuntu false fresh_mngr).2 = queue fresh_mngr.
Proof.
  apply (pull_in_process_worker_raises
           (World (fun _ => true) (fun _ => "PENDING") true false)
           "good" edison_ubuntu q_edison_ubuntu fresh_mngr).
  - compute_done.
  - reflexivity.
  - reflexivity.
  - compute_done.
  - compute_done.
  - reflexivity.
Defined.
